(** * mcp-browsy: the CDP client and the browser manager

    A shallow embedding of [src/mcp_browsy/cdp.py] (class [CDPClient]) and of
    the session part of [src/mcp_browsy/browser.py] (classes [Browser] and
    [BrowserManager]), followed by the properties of the protocol transport
    and of the launch policy.

    Conventions.
    - Python objects parsed from JSON are values of [json].
    - A coroutine is cut at its suspension points: the part of [send] that
      runs before the first [await] that can suspend is [send_begin], what
      the caller gets when [asyncio.wait_for] resumes it is [send_resume];
      [send_unwritten] is a [send] whose write to the transport raises.
    - The asyncio objects the client holds (futures, the tasks it creates for
      event handlers) live in ghost fields of the client state, so that
      aliasing of a future between [_callbacks] and the suspended caller is
      explicit. *)

From Stdlib Require Import ZArith QArith List Lia Permutation Sorted.
From stdpp Require Import base option gmap strings pretty list fin_maps.

Local Open Scope string_scope.
Local Open Scope Z_scope.
Local Open Scope list_scope.

(** ** Values produced by [json.loads] *)

#[local] Set Warnings "-register-all".

Inductive json : Type :=
| JNull
| JBool (b : bool)
| JInt (n : Z)
| JFloat (q : Q)            (* a finite float, by its exact value *)
| JNonFinite                (* NaN, Infinity, -Infinity *)
| JStr (s : string)
| JArr (items : list json)
| JObj (members : list (string * json)).

(** ** Exceptions raised by the modelled code and by the library calls it makes *)

Inductive exn : Type :=
| JSONDecodeError
| TypeError
| AttributeError
| KeyError
| InvalidStateError                       (* asyncio: result set on a done future *)
| RuntimeError (msg : string)
| TimeoutError (command : string)         (* asyncio.TimeoutError; the text names the command *)
| CancelledError
| ConnectionClosed
| CDPError (code message : json)
| BrowserError (msg : string)
| ConnectionError (msg : string)       (* the built-in, e.g. a refused connection *)
| OSError (msg : string).

Inductive res (A : Type) : Type :=
| Ok (a : A)
| Raise (e : exn).
Arguments Ok {A} a.
Arguments Raise {A} e.

(** ** Python operations on parsed values *)

Fixpoint dict_get (key : string) (members : list (string * json)) : option json :=
  match members with
  | [] => None
  | (k, v) :: rest => if String.eqb key k then Some v else dict_get key rest
  end.

Definition is_str (key : string) (v : json) : bool :=
  match v with
  | JStr s => String.eqb key s
  | _ => false
  end.

(** [key in data] where [key] is a [str] literal. *)
Definition py_in (key : string) (data : json) : res bool :=
  match data with
  | JObj members => Ok (bool_decide (is_Some (dict_get key members)))
  | JArr items => Ok (existsb (is_str key) items)
  | JStr s => Ok (bool_decide (is_Some (String.index 0 key s)))
  | _ => Raise TypeError
  end.

(** [data[key]] where [key] is a [str] literal. *)
Definition py_getitem (data : json) (key : string) : res json :=
  match data with
  | JObj members =>
      match dict_get key members with
      | Some v => Ok v
      | None => Raise KeyError
      end
  | _ => Raise TypeError
  end.

(** [data.get(key, default)]. *)
Definition py_get (data : json) (key : string) (dflt : json) : res json :=
  match data with
  | JObj members => Ok (default dflt (dict_get key members))
  | _ => Raise AttributeError
  end.

(** How a parsed value behaves as a dictionary key.  The keys of
    [_callbacks] are ints and those of [_event_handlers] are strs; [True]
    and [1.0] hash and compare equal to [1]; lists and dicts are
    unhashable. *)
Inductive dict_key : Type :=
| KeyInt (n : Z)
| KeyStr (s : string)
| KeyOther.

Definition py_key (v : json) : res dict_key :=
  match v with
  | JInt n => Ok (KeyInt n)
  | JBool b => Ok (KeyInt (if b then 1 else 0))
  | JFloat q =>
      let r := Qred q in
      if (Qden r =? 1)%positive then Ok (KeyInt (Qnum r)) else Ok KeyOther
  | JStr s => Ok (KeyStr s)
  | JNull | JNonFinite => Ok KeyOther
  | JArr _ | JObj _ => Raise TypeError
  end.

(** ** A text frame, as [json.loads] sees it

    [json.loads] is library code: a frame is represented by what it does
    with it, raise [JSONDecodeError] or return a value. *)
Inductive message : Type :=
| NotJson (text : string)
| Json (data : json).

Definition json_loads (m : message) : res json :=
  match m with
  | NotJson _ => Raise JSONDecodeError
  | Json data => Ok data
  end.

(** ** asyncio futures and event handlers *)

Inductive future_state : Type :=
| Pending
| Result (value : json)
| Exception (e : exn)
| Cancelled.

Definition done (s : future_state) : bool :=
  match s with
  | Pending => false
  | _ => true
  end.

(** An event handler is a coroutine function compared by identity
    ([h != handler] in [off]).  [Callback n] is a function supplied by a
    caller of [on]; [WaitHandler f p] is the closure [handler] that
    [wait_for_event] creates around its future [f] and its predicate [p],
    one closure per future. *)
Inductive handler : Type :=
| Callback (name : nat)
| WaitHandler (future : nat) (predicate : option (json → bool)).

Definition handler_eqb (h1 h2 : handler) : bool :=
  match h1, h2 with
  | Callback n1, Callback n2 => Nat.eqb n1 n2
  | WaitHandler f1 _, WaitHandler f2 _ => Nat.eqb f1 f2
  | _, _ => false
  end.

Record websocket : Type := { endpoint : string; closed : bool }.

Inductive task_state : Type :=
| Running
| Finished.

(** ** The state of a [CDPClient]

    The first seven fields are the attributes set in [__init__].  The
    others are ghost state: the futures created so far, the handler tasks
    created by [asyncio.create_task] and not run yet (in creation order,
    which is the order the event loop runs them in), the frames written
    with [ws.send], and the calls made to caller-supplied handlers. *)
Record client : Type := {
  ws : option websocket;
  _callbacks : gmap Z nat;
  _event_handlers : gmap string (list handler);
  _id_counter : Z;
  _listen_task : option task_state;
  _connected : bool;
  _ws_url : option string;
  futures : gmap nat future_state;
  next_future : nat;
  tasks : list (handler * json);
  sent : list json;
  invoked : list (nat * json)
}.

Definition init : client := {|
  ws := None;
  _callbacks := ∅;
  _event_handlers := ∅;
  _id_counter := 0;
  _listen_task := None;
  _connected := false;
  _ws_url := None;
  futures := ∅;
  next_future := 0%nat;
  tasks := [];
  sent := [];
  invoked := []
|}.

Definition with_ws (v : option websocket) (c : client) : client :=
  {| ws := v; _callbacks := _callbacks c; _event_handlers := _event_handlers c;
     _id_counter := _id_counter c; _listen_task := _listen_task c;
     _connected := _connected c; _ws_url := _ws_url c; futures := futures c;
     next_future := next_future c; tasks := tasks c; sent := sent c;
     invoked := invoked c |}.

Definition with_callbacks (v : gmap Z nat) (c : client) : client :=
  {| ws := ws c; _callbacks := v; _event_handlers := _event_handlers c;
     _id_counter := _id_counter c; _listen_task := _listen_task c;
     _connected := _connected c; _ws_url := _ws_url c; futures := futures c;
     next_future := next_future c; tasks := tasks c; sent := sent c;
     invoked := invoked c |}.

Definition with_event_handlers (v : gmap string (list handler)) (c : client) : client :=
  {| ws := ws c; _callbacks := _callbacks c; _event_handlers := v;
     _id_counter := _id_counter c; _listen_task := _listen_task c;
     _connected := _connected c; _ws_url := _ws_url c; futures := futures c;
     next_future := next_future c; tasks := tasks c; sent := sent c;
     invoked := invoked c |}.

Definition with_id_counter (v : Z) (c : client) : client :=
  {| ws := ws c; _callbacks := _callbacks c; _event_handlers := _event_handlers c;
     _id_counter := v; _listen_task := _listen_task c;
     _connected := _connected c; _ws_url := _ws_url c; futures := futures c;
     next_future := next_future c; tasks := tasks c; sent := sent c;
     invoked := invoked c |}.

Definition with_listen_task (v : option task_state) (c : client) : client :=
  {| ws := ws c; _callbacks := _callbacks c; _event_handlers := _event_handlers c;
     _id_counter := _id_counter c; _listen_task := v;
     _connected := _connected c; _ws_url := _ws_url c; futures := futures c;
     next_future := next_future c; tasks := tasks c; sent := sent c;
     invoked := invoked c |}.

Definition with_connected (v : bool) (c : client) : client :=
  {| ws := ws c; _callbacks := _callbacks c; _event_handlers := _event_handlers c;
     _id_counter := _id_counter c; _listen_task := _listen_task c;
     _connected := v; _ws_url := _ws_url c; futures := futures c;
     next_future := next_future c; tasks := tasks c; sent := sent c;
     invoked := invoked c |}.

Definition with_ws_url (v : option string) (c : client) : client :=
  {| ws := ws c; _callbacks := _callbacks c; _event_handlers := _event_handlers c;
     _id_counter := _id_counter c; _listen_task := _listen_task c;
     _connected := _connected c; _ws_url := v; futures := futures c;
     next_future := next_future c; tasks := tasks c; sent := sent c;
     invoked := invoked c |}.

Definition with_futures (v : gmap nat future_state) (c : client) : client :=
  {| ws := ws c; _callbacks := _callbacks c; _event_handlers := _event_handlers c;
     _id_counter := _id_counter c; _listen_task := _listen_task c;
     _connected := _connected c; _ws_url := _ws_url c; futures := v;
     next_future := next_future c; tasks := tasks c; sent := sent c;
     invoked := invoked c |}.

Definition with_next_future (v : nat) (c : client) : client :=
  {| ws := ws c; _callbacks := _callbacks c; _event_handlers := _event_handlers c;
     _id_counter := _id_counter c; _listen_task := _listen_task c;
     _connected := _connected c; _ws_url := _ws_url c; futures := futures c;
     next_future := v; tasks := tasks c; sent := sent c;
     invoked := invoked c |}.

Definition with_tasks (v : list (handler * json)) (c : client) : client :=
  {| ws := ws c; _callbacks := _callbacks c; _event_handlers := _event_handlers c;
     _id_counter := _id_counter c; _listen_task := _listen_task c;
     _connected := _connected c; _ws_url := _ws_url c; futures := futures c;
     next_future := next_future c; tasks := v; sent := sent c;
     invoked := invoked c |}.

Definition with_sent (v : list json) (c : client) : client :=
  {| ws := ws c; _callbacks := _callbacks c; _event_handlers := _event_handlers c;
     _id_counter := _id_counter c; _listen_task := _listen_task c;
     _connected := _connected c; _ws_url := _ws_url c; futures := futures c;
     next_future := next_future c; tasks := tasks c; sent := v;
     invoked := invoked c |}.

Definition with_invoked (v : list (nat * json)) (c : client) : client :=
  {| ws := ws c; _callbacks := _callbacks c; _event_handlers := _event_handlers c;
     _id_counter := _id_counter c; _listen_task := _listen_task c;
     _connected := _connected c; _ws_url := _ws_url c; futures := futures c;
     next_future := next_future c; tasks := tasks c; sent := sent c;
     invoked := v |}.

(** ** Statements of a method body: state passing with exceptions

    A raised exception keeps the state reached so far, as in Python. *)
Definition M (A : Type) : Type := client → res A * client.

Definition ret {A} (a : A) : M A := λ c, (Ok a, c).
Definition raise {A} (e : exn) : M A := λ c, (Raise e, c).
Definition lift {A} (r : res A) : M A := λ c, (r, c).
Definition bind {A B} (m : M A) (k : A → M B) : M B :=
  λ c, match m c with
       | (Ok a, c') => k a c'
       | (Raise e, c') => (Raise e, c')
       end.
Definition gets {A} (f : client → A) : M A := λ c, (Ok (f c), c).
Definition modify (f : client → client) : M unit := λ c, (Ok tt, f c).

Notation "x <- m ;; k" := (bind m (λ x, k))
  (at level 100, m at next level, right associativity).
Notation "m ;;; k" := (bind m (λ _, k))
  (at level 100, right associativity).

(** [for x in xs: body x] *)
Fixpoint for_each {A} (xs : list A) (body : A → M unit) : M unit :=
  match xs with
  | [] => ret tt
  | x :: rest => body x ;;; for_each rest body
  end.

(** [try: body finally: cleanup] *)
Definition finally {A} (body : M A) (cleanup : M unit) : M A :=
  λ c, match body c with
       | (r, c') =>
           match cleanup c' with
           | (Ok _, c'') => (r, c'')
           | (Raise e, c'') => (Raise e, c'')
           end
       end.

(** ** Futures *)

Definition new_future : M nat :=
  λ c, (Ok (next_future c),
        with_next_future (S (next_future c))
          (with_futures (<[next_future c := Pending]> (futures c)) c)).

Definition future_done (future : nat) : M bool :=
  gets (λ c, match futures c !! future with
             | Some s => done s
             | None => false
             end).

Definition set_future (future : nat) (s : future_state) : M unit :=
  d <- future_done future ;;
  if d then raise InvalidStateError
  else modify (λ c, with_futures (<[future := s]> (futures c)) c).

Definition set_result (future : nat) (value : json) : M unit :=
  set_future future (Result value).

Definition set_exception (future : nat) (e : exn) : M unit :=
  set_future future (Exception e).

(** [future.cancel()]: no effect on a future that is done. *)
Definition cancel (future : nat) : M unit :=
  d <- future_done future ;;
  if d then ret tt
  else modify (λ c, with_futures (<[future := Cancelled]> (futures c)) c).

(** [await asyncio.wait_for(future, timeout)] at the moment the caller is
    resumed.  If the future is done the caller gets its outcome.  If it is
    still pending, [wait_for] cancels it and raises: [TimeoutError] when the
    timeout expired, [CancelledError] otherwise (the only other way a
    suspended [wait_for] resumes is the cancellation of the calling task). *)
Definition wait_for (future : nat) (expired : bool) : M json :=
  s <- gets (λ c, futures c !! future) ;;
  match s with
  | Some (Result value) => ret value
  | Some (Exception e) => raise e
  | Some Cancelled => raise CancelledError
  | _ =>
      cancel future ;;;
      raise (if expired then TimeoutError EmptyString else CancelledError)
  end.

(** ** [CDPClient] *)

(** [connected] (property) *)
Definition connected (c : client) : bool :=
  _connected c &&
  match ws c with
  | Some w => negb (closed w)
  | None => false
  end.

(** [if not future.done(): future.cancel()] *)
Definition cancel_if_pending (future : nat) : M unit :=
  d <- future_done future ;;
  if negb d then cancel future else ret tt.

(** [close] *)
Definition close : M unit :=
  modify (with_connected false) ;;;
  task <- gets _listen_task ;;
  (match task with
   | Some _ => modify (with_listen_task None)
   | None => ret tt
   end) ;;;
  w <- gets ws ;;
  (match w with
   | Some _ => modify (with_ws None)
   | None => ret tt
   end) ;;;
  callbacks <- gets _callbacks ;;
  for_each (map snd (map_to_list callbacks)) cancel_if_pending ;;;
  modify (with_callbacks ∅).

(** [connect].  [dial] is what [websockets.connect] does: [None] when it
    returns a connection, [Some e] when it raises [e]. *)
Definition connect (ws_url : string) (dial : option exn) : M unit :=
  c <- gets connected ;;
  (if c then close else ret tt) ;;;
  modify (with_ws_url (Some ws_url)) ;;;
  match dial with
  | None =>
      modify (with_ws (Some {| endpoint := ws_url; closed := false |})) ;;;
      modify (with_connected true) ;;;
      modify (with_listen_task (Some Running))
  | Some e => raise e
  end.

(** [asyncio.create_task(handler(params))] *)
Definition create_task (h : handler) (params : json) : M unit :=
  modify (λ c, with_tasks (tasks c ++ [(h, params)]) c).

(** [_handle_message] *)
Definition handle_message (m : message) : M unit :=
  match json_loads m with
  | Raise _ => ret tt
  | Ok data =>
      has_id <- lift (py_in "id" data) ;;
      (if has_id then
         msg_id <- lift (py_getitem data "id") ;;
         key <- lift (py_key msg_id) ;;
         callbacks <- gets _callbacks ;;
         match key with
         | KeyInt n =>
             match callbacks !! n with
             | Some future =>
                 modify (with_callbacks (delete n callbacks)) ;;;
                 has_error <- lift (py_in "error" data) ;;
                 if has_error then
                   error <- lift (py_getitem data "error") ;;
                   code <- lift (py_get error "code" (JInt (-1))) ;;
                   text <- lift (py_get error "message" (JStr "Unknown error")) ;;
                   set_exception future (CDPError code text)
                 else
                   result <- lift (py_get data "result" (JObj [])) ;;
                   set_result future result
             | None => ret tt
             end
         | _ => ret tt
         end
       else ret tt) ;;;
      has_method <- lift (py_in "method" data) ;;
      if has_method then
        method <- lift (py_getitem data "method") ;;
        params <- lift (py_get data "params" (JObj [])) ;;
        key <- lift (py_key method) ;;
        handlers <- gets _event_handlers ;;
        match key with
        | KeyStr name =>
            match handlers !! name with
            | Some hs => for_each hs (λ h, create_task h params)
            | None => ret tt
            end
        | _ => ret tt
        end
      else ret tt
  end.

(** [_listen_loop], one turn of [async for message in self.ws] in which a
    frame was received.  An exception that escapes [_handle_message] is
    caught by [except Exception], which ends the loop. *)
Definition listen_loop_receive (m : message) : M unit :=
  λ c, match _listen_task c with
       | Some Running =>
           match handle_message m c with
           | (Ok _, c') => (Ok tt, c')
           | (Raise _, c') =>
               (Ok tt, with_listen_task (Some Finished) (with_connected false c'))
           end
       | _ => (Ok tt, c)
       end.

(** [_listen_loop] when the transport closes under it, without [close]
    having been called.  The iterator of the websocket ends normally on a
    clean closure ([clean = true]), leaving [_connected] as it is, and raises
    [ConnectionClosed] otherwise. *)
Definition listen_loop_closed (clean : bool) : M unit :=
  λ c, match _listen_task c, ws c with
       | Some Running, Some w =>
           let c' := with_ws (Some {| endpoint := endpoint w; closed := true |}) c in
           if clean then (Ok tt, with_listen_task (Some Finished) c')
           else (Ok tt, with_listen_task (Some Finished) (with_connected false c'))
       | _, _ => (Ok tt, c)
       end.

(** [send], up to the suspension in [asyncio.wait_for], when the write
    [await self.ws.send(...)] returns; [send_unwritten] below is the call
    when the write raises. *)
Definition send_begin (method : string) (params : option (list (string * json)))
  : M (Z * nat) :=
  c <- gets connected ;;
  if negb c then raise (RuntimeError "CDP client not connected")
  else
    modify (λ c, with_id_counter (_id_counter c + 1) c) ;;;
    msg_id <- gets _id_counter ;;
    let message :=
      JObj [("id", JInt msg_id); ("method", JStr method);
            ("params", JObj (default [] params))] in
    future <- new_future ;;
    modify (λ c, with_callbacks (<[msg_id := future]> (_callbacks c)) c) ;;;
    modify (λ c, with_sent (sent c ++ [message]) c) ;;;
    ret (msg_id, future).

(** [send], from the moment [asyncio.wait_for] resumes the caller. *)
Definition send_resume (method : string) (msg_id : Z) (future : nat)
    (expired : bool) : M json :=
  λ c, match wait_for future expired c with
       | (Raise (TimeoutError _), c') =>
           (modify (λ c, with_callbacks (delete msg_id (_callbacks c)) c) ;;;
            raise (TimeoutError method)) c'
       | r => r
       end.

(** [send] when [await self.ws.send(...)] raises [e]: the id is allocated
    and the future registered before the write, and nothing is written.
    Only [asyncio.TimeoutError] is caught, which removes the entry; any
    other exception leaves the entry in [_callbacks]. *)
Definition send_unwritten (method : string) (params : option (list (string * json)))
    (e : exn) : M json :=
  c <- gets connected ;;
  if negb c then raise (RuntimeError "CDP client not connected")
  else
    modify (λ c, with_id_counter (_id_counter c + 1) c) ;;;
    msg_id <- gets _id_counter ;;
    future <- new_future ;;
    modify (λ c, with_callbacks (<[msg_id := future]> (_callbacks c)) c) ;;;
    match e with
    | TimeoutError _ =>
        modify (λ c, with_callbacks (delete msg_id (_callbacks c)) c) ;;;
        raise (TimeoutError method)
    | _ => raise e
    end.

(** [send] as a whole, when the write returns: [arrivals] are the frames
    the listen loop handles while the caller is suspended; if its future is
    still pending after them the caller stays suspended until its timeout
    expires. *)
Definition send (method : string) (params : option (list (string * json)))
    (arrivals : list message) : M json :=
  p <- send_begin method params ;;
  for_each arrivals listen_loop_receive ;;;
  send_resume method (fst p) (snd p) true.

(** [on] *)
Definition on (event : string) (h : handler) : M unit :=
  modify (λ c,
    let hs := default [] (_event_handlers c !! event) in
    with_event_handlers (<[event := hs ++ [h]]> (_event_handlers c)) c).

(** [off] *)
Definition off (event : string) (h : option handler) : M unit :=
  modify (λ c,
    match _event_handlers c !! event with
    | Some hs =>
        match h with
        | None => with_event_handlers (delete event (_event_handlers c)) c
        | Some h =>
            with_event_handlers
              (<[event := List.filter (λ x, negb (handler_eqb x h)) hs]>
                 (_event_handlers c)) c
        end
    | None => c
    end).

(** [wait_for_event], up to the suspension in [asyncio.wait_for]. *)
Definition wait_for_event_begin (event : string) (predicate : option (json → bool))
  : M nat :=
  future <- new_future ;;
  on event (WaitHandler future predicate) ;;;
  ret future.

(** [wait_for_event], from the moment [asyncio.wait_for] resumes the caller. *)
Definition wait_for_event_resume (event : string) (future : nat)
    (predicate : option (json → bool)) (expired : bool) : M json :=
  finally (wait_for future expired)
          (off event (Some (WaitHandler future predicate))).

(** [predicate is None or predicate(params)] *)
Definition accepts (predicate : option (json → bool)) (params : json) : bool :=
  match predicate with
  | None => true
  | Some p => p params
  end.

(** The body of a handler task. *)
Definition run_handler (h : handler) (params : json) : M unit :=
  match h with
  | Callback name => modify (λ c, with_invoked (invoked c ++ [(name, params)]) c)
  | WaitHandler future predicate =>
      if accepts predicate params
      then
        d <- future_done future ;;
        if negb d then set_result future params else ret tt
      else ret tt
  end.

(** The event loop runs the oldest handler task that is ready.  What the
    task raises stays in the task. *)
Definition run_task : M unit :=
  λ c, match tasks c with
       | [] => (Ok tt, c)
       | (h, params) :: rest =>
           (Ok tt, snd (run_handler h params (with_tasks rest c)))
       end.

(** One tick of the event loop as the client sees it: the listen loop
    receives a frame, or the oldest ready handler task runs. *)
Inductive tick : Type :=
| Arrive (m : message)
| Turn.

Definition run_tick (t : tick) : M unit :=
  match t with
  | Arrive m => listen_loop_receive m
  | Turn => run_task
  end.

Fixpoint run_tasks (n : nat) : M unit :=
  match n with
  | O => ret tt
  | S k => run_task ;;; run_tasks k
  end.

(** The event loop runs every handler task that is ready. *)
Definition run_ready_tasks : M unit :=
  λ c, run_tasks (length (tasks c)) c.

(** [wait_for_event] as a whole: [schedule] is what the event loop does
    while the caller is suspended; the handler tasks still ready after it
    run before the caller is resumed; if the future is still pending then,
    the caller stays suspended until its timeout expires. *)
Definition wait_for_event (event : string) (predicate : option (json → bool))
    (schedule : list tick) : M json :=
  future <- wait_for_event_begin event predicate ;;
  for_each schedule run_tick ;;;
  run_ready_tasks ;;;
  wait_for_event_resume event future predicate true.

(** ** [Browser] *)

Record Browser : Type := {
  cdp : client;
  target_id : json;
  _enabled_domains : gset string
}.

Definition with_cdp (c : client) (b : Browser) : Browser :=
  {| cdp := c; target_id := target_id b; _enabled_domains := _enabled_domains b |}.

(** [Browser.__init__] *)
Definition new_browser (c : client) (target : json) : Browser :=
  {| cdp := c; target_id := target; _enabled_domains := ∅ |}.

(** [enable_domain].  [arrivals] is what the connection delivers while
    [cdp.send] is suspended. *)
Definition enable_domain (domain : string) (arrivals : list message) (b : Browser)
  : res unit * Browser :=
  if bool_decide (domain ∈ _enabled_domains b) then (Ok tt, b)
  else
    match send (domain +:+ ".enable") None arrivals (cdp b) with
    | (Ok _, c') =>
        (Ok tt, {| cdp := c'; target_id := target_id b;
                   _enabled_domains := {[domain]} ∪ _enabled_domains b |})
    | (Raise e, c') => (Raise e, with_cdp c' b)
    end.

(** [navigate] *)
Definition navigate (url wait_until : string) (a1 a2 : list message)
    (schedule : list tick) (b : Browser) : res json * Browser :=
  match enable_domain "Page" a1 b with
  | (Raise e, b1) => (Raise e, b1)
  | (Ok _, b1) =>
      let event_name :=
        if String.eqb wait_until "load" then "Page.loadEventFired"
        else if String.eqb wait_until "domcontentloaded" then "Page.domContentEventFired"
        else "Page.loadEventFired" in
      match send "Page.navigate" (Some [("url", JStr url)]) a2 (cdp b1) with
      | (Raise e, c2) => (Raise e, with_cdp c2 b1)
      | (Ok nav_result, c2) =>
          match wait_for_event event_name None schedule c2 with
          | (Ok _, c3) => (Ok nav_result, with_cdp c3 b1)
          | (Raise (TimeoutError _), c3) => (Ok nav_result, with_cdp c3 b1)
          | (Raise e, c3) => (Raise e, with_cdp c3 b1)
          end
      end
  end.

(** [get_url] and [get_title]: the [value] of the [result] of
    [Runtime.evaluate] on [expression], the empty string when absent. *)
Definition evaluate (expression : string) (a1 a2 : list message) (b : Browser)
  : res json * Browser :=
  match enable_domain "Runtime" a1 b with
  | (Raise e, b1) => (Raise e, b1)
  | (Ok _, b1) =>
      match send "Runtime.evaluate"
              (Some [("expression", JStr expression); ("returnByValue", JBool true)])
              a2 (cdp b1) with
      | (Raise e, c2) => (Raise e, with_cdp c2 b1)
      | (Ok result, c2) =>
          match py_get result "result" (JObj []) with
          | Ok inner =>
              match py_get inner "value" (JStr EmptyString) with
              | Ok v => (Ok v, with_cdp c2 b1)
              | Raise e => (Raise e, with_cdp c2 b1)
              end
          | Raise e => (Raise e, with_cdp c2 b1)
          end
      end
  end.

Definition get_title := evaluate "document.title".

(** [Browser.close] *)
Definition browser_close (b : Browser) : res unit * Browser :=
  match close (cdp b) with
  | (r, c') => (r, with_cdp c' b)
  end.





(** The calls that can be made on a [CDPClient] and the ticks of its event
    loop, for statements about every history of a client. *)
Inductive call : Type :=
| Connect (ws_url : string) (dial : option exn)
| Close
| SendBegin (method : string) (params : option (list (string * json)))
| SendResume (method : string) (msg_id : Z) (future : nat) (expired : bool)
| On (event : string) (name : nat)
| Off (event : string) (h : option handler)
| WaitBegin (event : string) (predicate : option (json → bool))
| WaitResume (event : string) (future : nat) (predicate : option (json → bool))
    (expired : bool)
| Loop (t : tick)
| TransportClosed (clean : bool)
| SendUnwritten (method : string) (params : option (list (string * json))) (e : exn).

Definition run_call (k : call) (c : client) : client :=
  match k with
  | Connect ws_url dial => snd (connect ws_url dial c)
  | Close => snd (close c)
  | SendBegin method params => snd (send_begin method params c)
  | SendResume method msg_id future expired =>
      snd (send_resume method msg_id future expired c)
  | On event name => snd (on event (Callback name) c)
  | Off event h => snd (off event h c)
  | WaitBegin event predicate => snd (wait_for_event_begin event predicate c)
  | WaitResume event future predicate expired =>
      snd (wait_for_event_resume event future predicate expired c)
  | Loop t => snd (run_tick t c)
  | TransportClosed clean => snd (listen_loop_closed clean c)
  | SendUnwritten method params e => snd (send_unwritten method params e c)
  end.

Definition run_calls (ks : list call) (c : client) : client :=
  fold_left (λ c k, run_call k c) ks c.

(** The command id a call allocates, if it allocates one. *)
Definition allocated (k : call) (c : client) : option Z :=
  match k with
  | SendBegin method params =>
      match fst (send_begin method params c) with
      | Ok p => Some (fst p)
      | Raise _ => None
      end
  | SendUnwritten method params e =>
      if connected c then Some (_id_counter (send_unwritten method params e c).2)
      else None
  | _ => None
  end.

(** The command ids allocated along a history, oldest first. *)
Fixpoint allocated_ids (ks : list call) (c : client) : list Z :=
  match ks with
  | [] => []
  | k :: rest =>
      match allocated k c with
      | Some i => i :: allocated_ids rest (run_call k c)
      | None => allocated_ids rest (run_call k c)
      end
  end.

(** ** [BrowserManager] *)

(** Truth value of a parsed value ([if not ws_url]). *)
Definition py_truthy (v : json) : bool :=
  match v with
  | JNull => false
  | JBool b => b
  | JInt n => negb (n =? 0)
  | JFloat q => negb (Qeq_bool q 0)
  | JNonFinite => true
  | JStr s => negb (String.eqb s EmptyString)
  | JArr items => negb (bool_decide (items = []))
  | JObj members => negb (bool_decide (members = []))
  end.

(** What happens to browser processes (ghost): [Spawned pid args],
    [subprocess.Popen(args)] returned the process [pid]; [Terminated pid],
    [terminate()] was called on it. *)
Inductive process_event : Type :=
| Spawned (pid : nat) (args : list string)
| Terminated (pid : nat).

Record BrowserManager : Type := {
  port : Z;
  process : option nat;
  browser : option Browser;
  processes : list process_event
}.

(** [BrowserManager.__init__] *)
Definition new_manager (port : Z) : BrowserManager :=
  {| port := port; process := None; browser := None; processes := [] |}.

(** [self.browser and self.browser.cdp.connected] *)
Definition attached (m : BrowserManager) : bool :=
  match browser m with
  | Some b => connected (cdp b)
  | None => false
  end.

(** What one attempt to attach meets: the answer of the discovery endpoint
    ([response.json()], JSON of any shape, or an exception of the HTTP
    client) and what [websockets.connect] does. *)
Record probe : Type := {
  response : res json;
  dial : option exn
}.

(** [_get_targets]: what [response.json()] returns, as it is; the empty
    list when the request raises. *)
Definition _get_targets (p : probe) : json :=
  match response p with
  | Ok targets => targets
  | Raise _ => JArr []
  end.

(** [target.get("type") == "page"] on a dict. *)
Definition is_page (target : list (string * json)) : bool :=
  match dict_get "type" target with
  | Some v => is_str "page" v
  | None => false
  end.

(** [for target in targets: if target.get("type") == "page": return target]
    over the items of a list: an item that is not a dict has no [get]. *)
Fixpoint first_page (items : list json) : res (option (list (string * json))) :=
  match items with
  | [] => Ok None
  | JObj target :: rest => if is_page target then Ok (Some target) else first_page rest
  | _ :: _ => Raise AttributeError
  end.

(** [_get_page_target].  The answer is iterated whatever it is: a dict
    yields its keys and a str its characters, which have no [get]; [None],
    a bool or a number is not iterable. *)
Definition _get_page_target (p : probe) : res (option (list (string * json))) :=
  match _get_targets p with
  | JArr items => first_page items
  | JObj members => if bool_decide (members = []) then Ok None else Raise AttributeError
  | JStr s => if String.eqb s EmptyString then Ok None else Raise AttributeError
  | JNull | JBool _ | JInt _ | JFloat _ | JNonFinite => Raise TypeError
  end.

(** [_try_connect].  [_get_page_target] is called outside the [try], so
    what it raises is raised by [_try_connect].  Every exception of the
    [try] block is caught: a [webSocketDebuggerUrl] that is not a str, a
    connection that fails, a target without [id]. *)
Definition _try_connect (p : probe) (m : BrowserManager)
  : res bool * BrowserManager :=
  match _get_page_target p with
  | Raise e => (Raise e, m)
  | Ok None => (Ok false, m)
  | Ok (Some target) =>
      if bool_decide (target = []) then (Ok false, m)
      else
        let ws_url := default JNull (dict_get "webSocketDebuggerUrl" target) in
        if negb (py_truthy ws_url) then (Ok false, m)
        else
          match ws_url with
          | JStr url =>
              match connect url (dial p) init with
              | (Ok _, c) =>
                  match dict_get "id" target with
                  | Some id =>
                      (Ok true, {| port := port m; process := process m;
                                   browser := Some (new_browser c id);
                                   processes := processes m |})
                  | None => (Ok false, m)
                  end
              | (Raise _, _) => (Ok false, m)
              end
          | _ => (Ok false, m)
          end
  end.

(** What [launch] meets: the first attempt to attach, the helpers of
    [utils.platform], [subprocess.Popen], the clock at the start of the
    polling loop and, for each test of the loop condition, the clock then
    and the attempt that follows if the loop goes on.  Clock readings and
    the timeout are taken as exact numbers. *)
Record launch_env : Type := {
  first_probe : probe;
  find_chrome_executable : option string;
  find_default_profile_dir : option string;
  is_profile_locked : bool;
  get_temp_profile_dir : string;
  popen : res nat;
  start_time : Q;
  polls : list (Q * probe)
}.

(** The [while] loop of [launch]: [Ok true] when an attempt attaches,
    [Ok false] when the clock reaches the timeout, [Raise e] when an
    attempt raises [e], which ends the loop.  [None]: the environment says
    nothing about the next test of the loop condition. *)
Fixpoint poll (timeout start : Q) (ticks : list (Q * probe)) (m : BrowserManager)
  : option (res bool * BrowserManager) :=
  match ticks with
  | [] => None
  | (now, p) :: rest =>
      if negb (Qle_bool timeout (now - start)) then
        match _try_connect p m with
        | (Ok true, m') => Some (Ok true, m')
        | (Ok false, m') => poll timeout start rest m'
        | (Raise e, m') => Some (Raise e, m')
        end
      else Some (Ok false, m)
  end.

(** The command line [launch] builds. *)
Definition launch_args (chrome_path : string) (headless use_profile : bool)
    (env : launch_env) (m : BrowserManager) : list string :=
  [chrome_path;
   "--remote-debugging-port=" +:+ pretty (port m);
   "--no-first-run";
   "--no-default-browser-check";
   "--disable-background-networking";
   "--disable-default-apps";
   "--disable-extensions";
   "--disable-sync";
   "--disable-translate";
   "--metrics-recording-only";
   "--mute-audio";
   "--safebrowsing-disable-auto-update"]
  ++ (if headless then ["--headless=new"; "--disable-gpu"] else [])
  ++ [if use_profile then
        match find_default_profile_dir env with
        | None | Some EmptyString => "--user-data-dir=" +:+ get_temp_profile_dir env
        | Some profile_dir =>
            if is_profile_locked env
            then "--user-data-dir=" +:+ get_temp_profile_dir env
            else "--user-data-dir=" +:+ profile_dir
        end
      else "--user-data-dir=" +:+ get_temp_profile_dir env].

(** [launch].  The texts of the errors leave out the parts formatted from
    the exception and from the timeout.  What an attempt to attach raises
    is raised by [launch] as it is: the polling loop is in no [try]. *)
Definition launch (headless use_profile : bool) (timeout : Q) (env : launch_env)
    (m : BrowserManager) : option (res (option Browser) * BrowserManager) :=
  if attached m then Some (Ok (browser m), m)
  else
    match _try_connect (first_probe env) m with
    | (Ok true, m1) => Some (Ok (browser m1), m1)
    | (Raise e, m1) => Some (Raise e, m1)
    | (Ok false, m1) =>
        match find_chrome_executable env with
        | None | Some EmptyString =>
            Some (Raise (BrowserError
                    "Chrome executable not found. Please install Chrome or Chromium."),
                  m1)
        | Some chrome_path =>
            let args := launch_args chrome_path headless use_profile env m1 in
            match popen env with
            | Raise _ => Some (Raise (BrowserError "Failed to launch Chrome"), m1)
            | Ok pid =>
                let m2 := {| port := port m1; process := Some pid;
                             browser := browser m1;
                             processes := processes m1 ++ [Spawned pid args] |} in
                match poll timeout (start_time env) (polls env) m2 with
                | None => None
                | Some (Ok true, m3) => Some (Ok (browser m3), m3)
                | Some (Raise e, m3) => Some (Raise e, m3)
                | Some (Ok false, m3) =>
                    let m4 :=
                      match process m3 with
                      | Some running =>
                          {| port := port m3; process := None;
                             browser := browser m3;
                             processes := processes m3 ++ [Terminated running] |}
                      | None => m3
                      end in
                    Some (Raise (BrowserError "Failed to connect to Chrome"), m4)
                end
            end
        end
    end.

(** [next((t for t in items if t["id"] == tab_id), None)] over the items of
    a list: the first item whose [id] is the str [tab_id]; [t["id"]] raises
    [KeyError] on a dict without [id] and [TypeError] on an item that is
    not a dict, when such an item is reached before a match. *)
Fixpoint find_item (tab_id : string) (items : list json)
  : res (option (list (string * json))) :=
  match items with
  | [] => Ok None
  | JObj t :: rest =>
      match dict_get "id" t with
      | None => Raise KeyError
      | Some v => if is_str tab_id v then Ok (Some t) else find_item tab_id rest
      end
  | _ :: _ => Raise TypeError
  end.

(** The same over what [_get_targets] returned, whatever it is: a dict
    yields its keys and a str its characters, which a str cannot index;
    [None], a bool or a number is not iterable. *)
Definition find_target (tab_id : string) (targets : json)
  : res (option (list (string * json))) :=
  match targets with
  | JArr items => find_item tab_id items
  | JObj members => if bool_decide (members = []) then Ok None else Raise TypeError
  | JStr s => if String.eqb s EmptyString then Ok None else Raise TypeError
  | JNull | JBool _ | JInt _ | JFloat _ | JNonFinite => Raise TypeError
  end.

(** What a call of [switch_tab] leaves: what it returns or raises, the
    manager, and the [Browser] object that was [self.browser] when the call
    began, as the call leaves it (a caller may still hold it). *)
Record switched : Type := {
  outcome : res bool;
  manager : BrowserManager;
  previous : option Browser
}.

Definition with_browser (b : option Browser) (m : BrowserManager) : BrowserManager :=
  {| port := port m; process := process m; browser := b; processes := processes m |}.

(** [switch_tab].  [p] is what the discovery endpoint answers and what
    [websockets.connect] does, [arrivals] what the new connection delivers
    while [Page.bringToFront] is outstanding.  [None]: the
    [webSocketDebuggerUrl] of the target is not a str, and what
    [websockets.connect] makes of it is not modelled. *)
Definition switch_tab (tab_id : string) (p : probe) (arrivals : list message)
    (m : BrowserManager) : option switched :=
  match find_target tab_id (_get_targets p) with
  | Raise e => Some {| outcome := Raise e; manager := m; previous := browser m |}
  | Ok None => Some {| outcome := Ok false; manager := m; previous := browser m |}
  | Ok (Some target) =>
      if bool_decide (target = [])
         || negb (bool_decide (is_Some (dict_get "webSocketDebuggerUrl" target)))
      then Some {| outcome := Ok false; manager := m; previous := browser m |}
      else
        let old :=
          match browser m with
          | Some b => Some (browser_close b).2
          | None => None
          end in
        match dict_get "webSocketDebuggerUrl" target with
        | Some (JStr url) =>
            match connect url (dial p) init with
            | (Raise e, _) =>
                Some {| outcome := Raise e; manager := with_browser old m;
                        previous := old |}
            | (Ok _, c) =>
                match send "Page.bringToFront" None arrivals c with
                | (r, c') =>
                    Some {| outcome := match r with
                                       | Ok _ => Ok true
                                       | Raise e => Raise e
                                       end;
                            manager := with_browser
                                         (Some (new_browser c' (JStr tab_id))) m;
                            previous := old |}
                end
            end
        | _ => None
        end
  end.

(** What [process.wait(timeout=5)] does. *)
Inductive wait_outcome : Type :=
| Exited
| TimeoutExpired.

(** What a call of [BrowserManager.close] leaves: the manager, the
    [Browser] object it released, as the call leaves it, and the process
    [kill()] was called on, if any. *)
Record shut_down : Type := {
  after : BrowserManager;
  released : option Browser;
  killed : option nat
}.

(** [BrowserManager.close].  The HTTP client of the discovery endpoint,
    which the call closes in between, is not part of the model. *)
Definition manager_close (wait : wait_outcome) (m : BrowserManager) : shut_down :=
  let old :=
    match browser m with
    | Some b => Some (browser_close b).2
    | None => None
    end in
  let m1 := with_browser None m in
  match process m1 with
  | Some pid =>
      {| after := {| port := port m1; process := None; browser := browser m1;
                     processes := processes m1 ++ [Terminated pid] |};
         released := old;
         killed := match wait with
                   | Exited => None
                   | TimeoutExpired => Some pid
                   end |}
  | None => {| after := m1; released := old; killed := None |}
  end.

(** * Vocabulary of the statements *)

(** ** Frames *)

(** A reply [{"id": msg_id, "result": payload}]. *)
Definition reply_frame (msg_id : Z) (payload : json) : message :=
  Json (JObj [("id", JInt msg_id); ("result", payload)]).

(** An event [{"method": name, "params": params}]; [params] may be absent. *)
Definition event_frame (name : string) (params : option json) : message :=
  Json (JObj (("method", JStr name) ::
              match params with
              | Some p => [("params", p)]
              | None => []
              end)).

(** ** Runs of a client *)

(** Several [send] calls, each taken up to its suspension, so that all of
    them are outstanding together. *)
Fixpoint send_all (requests : list (string * option (list (string * json))))
  : M (list (Z * nat)) :=
  match requests with
  | [] => ret []
  | (method, params) :: rest =>
      p <- send_begin method params ;;
      ps <- send_all rest ;;
      ret (p :: ps)
  end.

(** What happens while a caller of [wait_for_event] is suspended: an event
    arrives, or the event loop runs the oldest ready handler task. *)
Inductive happening : Type :=
| Event (name : string) (params : option json)
| TaskRuns.

Definition tick_of (h : happening) : tick :=
  match h with
  | Event name params => Arrive (event_frame name params)
  | TaskRuns => Turn
  end.

(** The events among [hs], in order of arrival, each with the parameters
    its handlers are called with. *)
Fixpoint events_of (hs : list happening) : list (string * json) :=
  match hs with
  | [] => []
  | Event name params :: rest => (name, default (JObj []) params) :: events_of rest
  | TaskRuns :: rest => events_of rest
  end.


(** ** Relations between the state before and the state after *)

(** [stable R m]: running [m] relates the state before to the state after,
    whether [m] returns or raises. *)
Definition stable {A} (R : relation client) (m : M A) : Prop :=
  ∀ c, R c (m c).2.

(** The id counter is the same in both states. *)
Definition same_counter (c c' : client) : Prop :=
  _id_counter c' = _id_counter c.

(** The frames written are the same in both states. *)
Definition same_sent (c c' : client) : Prop :=
  sent c' = sent c.

(** A client that is not connected in the first state is not connected in
    the second. *)
Definition stays_disconnected (c c' : client) : Prop :=
  connected c = false → connected c' = false.

(** A call other than [connect]. *)
Definition not_connect (k : call) : Prop :=
  match k with
  | Connect _ _ => False
  | _ => True
  end.

(** ** Waiting for an event *)

(** Stated from the specification: the parameters of the first event named
    [event] that satisfies [predicate]. *)
Definition first_matching_event (event : string) (predicate : option (json → bool))
    (events : list (string * json)) : option json :=
  snd <$> List.find (λ e, String.eqb e.1 event && accepts predicate e.2) events.

(** No handler list and no ready task mentions the future [f]: the case of
    a future that has not been created yet. *)
Definition unused_future (f : nat) (c : client) : Prop :=
  (∀ name hs p, _event_handlers c !! name = Some hs → WaitHandler f p ∉ hs) ∧
  (∀ p params, (WaitHandler f p, params) ∉ tasks c).

(** The parameters of the ready tasks of the wait handler of future [f],
    oldest first. *)
Fixpoint pending_params (f : nat) (ts : list (handler * json)) : list json :=
  match ts with
  | [] => []
  | (WaitHandler g _, params) :: rest =>
      if Nat.eqb g f then params :: pending_params f rest
      else pending_params f rest
  | _ :: rest => pending_params f rest
  end.

(** What the future of a wait ends up with, from its state and the ready
    tasks of its handler. *)
Definition settle (predicate : option (json → bool)) (s : option future_state)
    (ps : list json) : option json :=
  match s with
  | Some (Result v) => Some v
  | Some Pending => List.find (accepts predicate) ps
  | _ => None
  end.

(** What holds of the client while a caller waits on the future [f] for
    [event]: the loop is running, the handlers are those left by
    [wait_for_event_begin], the ready tasks of the wait handler carry its
    predicate, the future is pending or has a result, and what it ends up
    with is the first matching event among those [seen] so far. *)
Definition wait_invariant (f : nat) (event : string)
    (predicate : option (json → bool)) (handlers : gmap string (list handler))
    (c : client) (seen : list (string * json)) : Prop :=
  _listen_task c = Some Running ∧
  _event_handlers c = handlers ∧
  Forall (λ t, ∀ p, t.1 = WaitHandler f p → p = predicate) (tasks c) ∧
  (futures c !! f = Some Pending ∨ ∃ v, futures c !! f = Some (Result v)) ∧
  settle predicate (futures c !! f) (pending_params f (tasks c))
    = first_matching_event event predicate seen.

(** No handler list and no ready task mentions a future that has not been
    created yet. *)
Definition fresh_futures (c : client) : Prop :=
  ∀ f, (next_future c ≤ f)%nat → unused_future f c.

Definition keeps_fresh (c c' : client) : Prop :=
  fresh_futures c → fresh_futures c'.

(** ** [close] and [launch] *)

(** The futures after [cancel_if_pending] has run on each of [l]. *)
Fixpoint cancel_all_in (l : list nat) (F : gmap nat future_state)
  : gmap nat future_state :=
  match l with
  | [] => F
  | x :: rest =>
      cancel_all_in rest
        (match F !! x with
         | Some s => if done s then F else <[x := Cancelled]> F
         | None => <[x := Cancelled]> F
         end)
  end.

(** The polling loop gives up: the clock reaches the timeout at some test
    of the loop condition, and no attempt made before that attaches. *)
Fixpoint gives_up (timeout start : Q) (ticks : list (Q * probe)) : Prop :=
  match ticks with
  | [] => False
  | (now, p) :: rest =>
      if negb (Qle_bool timeout (now - start))
      then (∀ m, (_try_connect p m).1 = Ok false) ∧ gives_up timeout start rest
      else True
  end.

(** ** Sample states and environments *)

(** A client connected to a page target, and the requests and payloads of
    a small run. *)
Definition page_client : client :=
  (connect "ws://localhost:9222/devtools/page/T1" None init).2.

Definition two_requests : list (string * option (list (string * json))) :=
  [("Page.enable", None); ("Page.navigate", Some [("url", JStr "about:blank")])].

Definition two_payloads : list json :=
  [JObj []; JObj [("frameId", JStr "F1")]].

(** A client with one caller-supplied handler on the load event. *)
Definition subscribed_client : client :=
  (on "Page.loadEventFired" (Callback 7) page_client).2.

(** A client with one command outstanding. *)
Definition waiting_client : client :=
  (send_begin "Page.enable" None page_client).2.

(** A session on [page_client]. *)
Definition page_browser : Browser := new_browser page_client (JStr "T1").

(** A discovery endpoint that refuses the connection. *)
Definition nobody_listening : probe :=
  {| response := Raise (OSError "connection refused"); dial := None |}.

(** A machine with Chromium installed and no browser reachable on the
    port, where half a second passes between two tests of the clock. *)
Definition unreachable_env : launch_env :=
  {| first_probe := nobody_listening;
     find_chrome_executable := Some "/usr/bin/chromium";
     find_default_profile_dir := Some "/home/user/.config/chromium";
     is_profile_locked := true;
     get_temp_profile_dir := "/tmp/mcp-browsy-profile";
     popen := Ok 4242%nat;
     start_time := 100%Q;
     polls := [(100%Q, nobody_listening); (100.5%Q, nobody_listening);
               (101%Q, nobody_listening)] |}.

(** A machine with Chromium installed where nothing answers at first and,
    once the browser is spawned, what listens on the port answers the
    discovery request with an object instead of a list of targets. *)
Definition wrong_shape_env : launch_env :=
  {| first_probe := nobody_listening;
     find_chrome_executable := Some "/usr/bin/chromium";
     find_default_profile_dir := Some "/home/user/.config/chromium";
     is_profile_locked := false;
     get_temp_profile_dir := "/tmp/mcp-browsy-profile";
     popen := Ok 4242%nat;
     start_time := 100%Q;
     polls := [(100%Q,
                {| response := Ok (JObj [("error", JStr "not found")]);
                   dial := None |})] |}.

(** ** Further vocabulary: replies, dispatch, subscriptions *)

(** What the caller of a [send] gets from the reply [{..members..}] to its
    command: the [result] (an empty dict when absent), or [CDPError] built
    from the [error] object with its defaults.  [None]: [error] is present
    and is not an object. *)
Definition reply_outcome (members : list (string * json)) : option (res json) :=
  match dict_get "error" members with
  | None => Some (Ok (default (JObj []) (dict_get "result" members)))
  | Some (JObj error) =>
      Some (Raise (CDPError (default (JInt (-1)) (dict_get "code" error))
                            (default (JStr "Unknown error") (dict_get "message" error))))
  | Some _ => None
  end.

(** The calls that running the tasks [ts] makes to caller-supplied
    handlers, in order. *)
Fixpoint calls_of (ts : list (handler * json)) : list (nat * json) :=
  match ts with
  | [] => []
  | (Callback name, params) :: rest => (name, params) :: calls_of rest
  | (WaitHandler _ _, _) :: rest => calls_of rest
  end.

(** [on(event, h)] called [k] times. *)
Fixpoint on_times (k : nat) (event : string) (h : handler) (c : client) : client :=
  match k with
  | O => c
  | S k' => on_times k' event h (on event h c).2
  end.

(** The [id] of a frame written by [send]. *)
Definition frame_id (frame : json) : option Z :=
  match py_getitem frame "id" with
  | Ok (JInt n) => Some n
  | _ => None
  end.

(** The command id of the frame a call writes, if it writes one. *)
Definition written (k : call) (c : client) : option Z :=
  match k with
  | SendBegin _ _ => allocated k c
  | _ => None
  end.

(** The command ids of the frames written along a history, oldest first. *)
Fixpoint written_ids (ks : list call) (c : client) : list Z :=
  match ks with
  | [] => []
  | k :: rest =>
      match written k c with
      | Some i => i :: written_ids rest (run_call k c)
      | None => written_ids rest (run_call k c)
      end
  end.

(** What [connect] returns or raises, from what [websockets.connect] does. *)
Definition dialled (dial : option exn) : res unit :=
  match dial with
  | None => Ok tt
  | Some e => Raise e
  end.

(** The event [navigate] waits for. *)
Definition waited_event (wait_until : string) : string :=
  if String.eqb wait_until "domcontentloaded" then "Page.domContentEventFired"
  else "Page.loadEventFired".

(** The polling loop attaches: an attempt made before the clock reaches
    the timeout attaches, and none made before it does. *)
Fixpoint attaches (timeout start : Q) (ticks : list (Q * probe)) : Prop :=
  match ticks with
  | [] => False
  | (now, p) :: rest =>
      if negb (Qle_bool timeout (now - start))
      then (∀ m, (_try_connect p m).1 = Ok true) ∨
           ((∀ m, (_try_connect p m).1 = Ok false) ∧ attaches timeout start rest)
      else False
  end.

(** A discovery endpoint that lists a service worker and two pages, and a
    machine where the browser answers at the second attempt of the polling
    loop. *)
Definition three_targets : probe :=
  {| response :=
       Ok (JArr
             [JObj [("id", JStr "W1"); ("type", JStr "service_worker");
                    ("webSocketDebuggerUrl",
                     JStr "ws://localhost:9222/devtools/page/W1")];
              JObj [("id", JStr "T1"); ("type", JStr "page");
                    ("url", JStr "about:blank");
                    ("webSocketDebuggerUrl",
                     JStr "ws://localhost:9222/devtools/page/T1")];
              JObj [("id", JStr "T2"); ("type", JStr "page");
                    ("webSocketDebuggerUrl",
                     JStr "ws://localhost:9222/devtools/page/T2")]]);
     dial := None |}.

Definition slow_start_env : launch_env :=
  {| first_probe := nobody_listening;
     find_chrome_executable := Some "/usr/bin/chromium";
     find_default_profile_dir := Some "/home/user/.config/chromium";
     is_profile_locked := true;
     get_temp_profile_dir := "/tmp/mcp-browsy-profile";
     popen := Ok 4242%nat;
     start_time := 100%Q;
     polls := [(100%Q, nobody_listening); (100.5%Q, three_targets)] |}.

(** The processes that were spawned and on which [terminate()] has not
    been called, oldest first. *)
Definition running (events : list process_event) : list nat :=
  fold_left (λ pids ev,
               match ev with
               | Spawned pid _ => pids ++ [pid]
               | Terminated pid => List.filter (λ x, negb (Nat.eqb x pid)) pids
               end)
            events [].

(** * Properties *)

Ltac unfold_m :=
  unfold bind, ret, raise, lift, gets, modify in *.

Lemma bind_run {A B} (m : M A) (k : A → M B) c :
  bind m k c =
    match m c with
    | (Ok a, c') => k a c'
    | (Raise e, c') => (Raise e, c')
    end.
Proof. reflexivity. Qed.

(** ** Correlation of replies with commands *)

Lemma send_begin_connected method params c :
  connected c = true →
  send_begin method params c =
    (Ok (_id_counter c + 1, next_future c),
     with_sent
       (sent c ++ [JObj [("id", JInt (_id_counter c + 1)); ("method", JStr method);
                         ("params", JObj (default [] params))]])
       (with_callbacks (<[_id_counter c + 1 := next_future c]> (_callbacks c))
          (with_next_future (S (next_future c))
             (with_futures (<[next_future c := Pending]> (futures c))
                (with_id_counter (_id_counter c + 1) c))))).
Proof.
  intros Hc. unfold send_begin, new_future. unfold_m. rewrite Hc. reflexivity.
Qed.

Lemma send_begin_not_connected method params c :
  connected c = false →
  send_begin method params c = (Raise (RuntimeError "CDP client not connected"), c).
Proof.
  intros Hc. unfold send_begin. unfold_m. rewrite Hc. reflexivity.
Qed.

Lemma send_unwritten_connected method params e c :
  connected c = true →
  send_unwritten method params e c =
    (Raise (match e with
            | TimeoutError _ => TimeoutError method
            | _ => e
            end),
     with_callbacks
       (match e with
        | TimeoutError _ =>
            delete (_id_counter c + 1)
              (<[_id_counter c + 1 := next_future c]> (_callbacks c))
        | _ => <[_id_counter c + 1 := next_future c]> (_callbacks c)
        end)
       (with_next_future (S (next_future c))
          (with_futures (<[next_future c := Pending]> (futures c))
             (with_id_counter (_id_counter c + 1) c)))).
Proof.
  intros Hc. unfold send_unwritten, new_future. unfold_m. rewrite Hc.
  destruct e; reflexivity.
Qed.

Lemma send_unwritten_not_connected method params e c :
  connected c = false →
  send_unwritten method params e c
  = (Raise (RuntimeError "CDP client not connected"), c).
Proof.
  intros Hc. unfold send_unwritten. unfold_m. rewrite Hc. reflexivity.
Qed.

Lemma handle_message_reply c msg_id payload future :
  _callbacks c !! msg_id = Some future →
  futures c !! future = Some Pending →
  handle_message (reply_frame msg_id payload) c =
    (Ok tt, with_futures (<[future := Result payload]> (futures c))
              (with_callbacks (delete msg_id (_callbacks c)) c)).
Proof.
  intros Hcb Hf. unfold handle_message, reply_frame. cbn. unfold_m. cbn.
  rewrite Hcb. cbn.
  unfold set_result, set_future, future_done. unfold_m. cbn.
  rewrite Hf. reflexivity.
Qed.


Lemma deliver_replies (replies : list (Z * json)) :
  ∀ c,
    NoDup (replies.*1) →
    (∀ id v, (id, v) ∈ replies →
       ∃ f, _callbacks c !! id = Some f ∧ futures c !! f = Some Pending) →
    (∀ id id' f, id ∈ replies.*1 → id' ∈ replies.*1 →
       _callbacks c !! id = Some f → _callbacks c !! id' = Some f → id = id') →
    ∃ c',
      for_each (map (λ r, reply_frame r.1 r.2) replies) handle_message c = (Ok tt, c') ∧
      (∀ id v f, (id, v) ∈ replies → _callbacks c !! id = Some f →
         futures c' !! f = Some (Result v)) ∧
      (∀ g, (∀ id, id ∈ replies.*1 → _callbacks c !! id ≠ Some g) →
         futures c' !! g = futures c !! g).
Proof.
  induction replies as [|[id v] rest IH]; intros c Hnd Hpend Hinj.
  - exists c. split; [reflexivity|]. split; [|done].
    intros ? ? ? Hin. by apply elem_of_nil in Hin.
  - cbn in Hnd. apply NoDup_cons in Hnd as [Hfresh Hnd].
    destruct (Hpend id v) as (f & Hcb & Hf); [left|].
    set (c1 := with_futures (<[f := Result v]> (futures c))
                 (with_callbacks (delete id (_callbacks c)) c)).
    assert (Hcb1 : ∀ id', id' ∈ rest.*1 → _callbacks c1 !! id' = _callbacks c !! id').
    { intros id' Hin. cbn. apply lookup_delete_ne. intros ->. done. }
    assert (Hother : ∀ id' f', id' ∈ rest.*1 → _callbacks c !! id' = Some f' → f' ≠ f).
    { intros id' f' Hin Hcb' ->. apply Hfresh.
      rewrite (Hinj id id' f); [done|left|right; done|done|done]. }
    destruct (IH c1) as (c' & Hrun & Hres & Hframe).
    + done.
    + intros id' v' Hin.
      assert (Hin' : id' ∈ rest.*1) by (apply list_elem_of_fmap; by exists (id', v')).
      destruct (Hpend id' v') as (f' & Hcb' & Hf'); [by right|].
      exists f'. split; [by rewrite Hcb1|].
      cbn. rewrite lookup_insert_ne; [done|].
      intros ->. by eapply Hother.
    + intros i i' g Hi Hi'. rewrite !Hcb1 by done.
      apply Hinj; by right.
    + exists c'. split; [|split].
      * cbn [map for_each]. unfold bind at 1.
        cbn [fst snd]. rewrite (handle_message_reply c id v f Hcb Hf). exact Hrun.
      * intros id0 v0 f0 Hin Hcb0. apply elem_of_cons in Hin as [Heq | Hin].
        -- inversion Heq; subst id0 v0. assert (f0 = f) by congruence. subst f0.
           rewrite Hframe.
           ++ cbn. apply lookup_insert_eq.
           ++ intros id' Hin' Hcb'. rewrite Hcb1 in Hcb' by done.
              by eapply Hother.
        -- assert (Hin' : id0 ∈ rest.*1) by (apply list_elem_of_fmap; by exists (id0, v0)).
           apply (Hres id0 v0 f0 Hin). by rewrite Hcb1.
      * intros g Hg. rewrite Hframe.
        -- cbn. apply lookup_insert_ne. intros ->. by apply (Hg id); [left|].
        -- intros id' Hin' Hcb'. rewrite Hcb1 in Hcb' by done.
           apply (Hg id'); [by right|done].
Qed.

Lemma send_all_spec requests :
  ∀ c,
    connected c = true →
    ∃ handles c',
      send_all requests c = (Ok handles, c') ∧
      length handles = length requests ∧
      connected c' = true ∧
      (∀ i id f, handles !! i = Some (id, f) →
         id = _id_counter c + 1 + Z.of_nat i ∧
         f = (next_future c + i)%nat ∧
         _callbacks c' !! id = Some f ∧
         futures c' !! f = Some Pending) ∧
      (∀ k, k ≤ _id_counter c → _callbacks c' !! k = _callbacks c !! k) ∧
      (∀ g, (g < next_future c)%nat → futures c' !! g = futures c !! g).
Proof.
  induction requests as [|[method params] rest IH]; intros c Hc.
  - exists [], c. repeat split; try done.
  - pose proof (send_begin_connected method params c Hc) as Hsend.
    set (c1 := with_sent _ _) in Hsend.
    assert (Hc1 : connected c1 = true) by exact Hc.
    destruct (IH c1 Hc1) as (handles & c' & Hrun & Hlen & Hc' & Hh & Hcb & Hfut).
    exists ((_id_counter c + 1, next_future c) :: handles), c'.
    split; [|split; [|split; [|split; [|split]]]].
    + cbn [send_all]. unfold bind at 1. rewrite Hsend.
      unfold bind at 1. rewrite Hrun. reflexivity.
    + cbn. by rewrite Hlen.
    + done.
    + intros [|i] id f Hi.
      * cbn in Hi. inversion Hi; subst id f.
        split; [lia|]. split; [lia|]. split.
        -- rewrite Hcb by (cbn; lia). cbn. apply lookup_insert_eq.
        -- rewrite Hfut by (cbn; lia). cbn. apply lookup_insert_eq.
      * cbn in Hi. destruct (Hh i id f Hi) as (-> & -> & Hcbi & Hfi).
        cbn in *. repeat split; try done; lia.
    + intros k Hk. rewrite Hcb by (cbn; lia). cbn.
      apply lookup_insert_ne. lia.
    + intros g Hg. rewrite Hfut by (cbn; lia). cbn.
      apply lookup_insert_ne. lia.
Qed.

Lemma for_each_create_task hs params :
  ∀ c, for_each hs (λ h, create_task h params) c =
         (Ok tt, with_tasks (tasks c ++ map (λ h, (h, params)) hs) c).
Proof.
  induction hs as [|h hs IH]; intros c.
  - cbn. unfold ret. rewrite app_nil_r. by destruct c.
  - cbn [for_each map]. unfold bind at 1. unfold create_task at 1. unfold modify.
    rewrite IH. cbn. by rewrite <- app_assoc.
Qed.

(** A frame whose id is an int that is not pending leaves the bookkeeping
    and every future as they are, whatever else the frame carries. *)
Lemma handle_message_unmatched_frame c members msg_id :
  dict_get "id" members = Some (JInt msg_id) →
  _callbacks c !! msg_id = None →
  _callbacks (handle_message (Json (JObj members)) c).2 = _callbacks c ∧
  futures (handle_message (Json (JObj members)) c).2 = futures c.
Proof.
  intros Hid Hcb. unfold handle_message. cbn. unfold_m.
  rewrite Hid. cbn. rewrite Hcb. cbn.
  destruct (dict_get "method" members) as [method|]; cbn; [|done].
  destruct (py_key method) as [[n|name|]|e]; cbn; try done.
  destruct (_event_handlers c !! name) as [hs|]; cbn; [|done].
  by rewrite for_each_create_task.
Qed.

Lemma send_resume_result method msg_id future expired c v :
  futures c !! future = Some (Result v) →
  send_resume method msg_id future expired c = (Ok v, c).
Proof.
  intros Hf. unfold send_resume, wait_for. unfold_m. by rewrite Hf.
Qed.

(** C1.  [n] calls of [send] outstanding together on a connected client:
    whatever the order in which the replies [{"id": id_i, "result": r_i}]
    arrive, the caller of the [i]-th call gets [r_i].  And a frame whose id
    is not the id of a pending command resolves nothing: the futures and
    the bookkeeping stay as they are. *)
Theorem concurrent_sends_resolve_by_id :
  (∀ c requests payloads,
     connected c = true →
     length payloads = length requests →
     ∃ handles c1,
       send_all requests c = (Ok handles, c1) ∧
       length handles = length requests ∧
       ∀ order,
         Permutation order (zip (handles.*1) payloads) →
         ∃ c2,
           for_each (map (λ r, reply_frame r.1 r.2) order) handle_message c1
             = (Ok tt, c2) ∧
           ∀ i id f v method expired,
             handles !! i = Some (id, f) →
             payloads !! i = Some v →
             send_resume method id f expired c2 = (Ok v, c2)) ∧
  (∀ c members msg_id,
     dict_get "id" members = Some (JInt msg_id) →
     _callbacks c !! msg_id = None →
     _callbacks (handle_message (Json (JObj members)) c).2 = _callbacks c ∧
     futures (handle_message (Json (JObj members)) c).2 = futures c).
Proof.
  split; [|apply handle_message_unmatched_frame].
  intros c requests payloads Hc Hlen.
  destruct (send_all_spec requests c Hc)
    as (handles & c1 & Hrun & Hlenh & _ & Hh & _ & _).
  exists handles, c1. split; [done|]. split; [done|].
  intros order Hperm.
  assert (Hfst : (zip (handles.*1) payloads).*1 = handles.*1).
  { apply fst_zip. rewrite length_fmap. lia. }
  assert (Hids : ∀ id, id ∈ order.*1 → ∃ i f, handles !! i = Some (id, f)).
  { intros id Hin. rewrite Hperm, Hfst in Hin.
    apply list_elem_of_lookup in Hin as [i Hi].
    apply list_lookup_fmap_Some in Hi as ([id' f] & -> & Hi).
    by exists i, f. }
  destruct (deliver_replies order c1) as (c2 & Hdel & Hres & _).
  - rewrite Hperm, Hfst. apply NoDup_alt. intros i j id Hi Hj.
    apply list_lookup_fmap_Some in Hi as ([id1 f1] & -> & Hi).
    apply list_lookup_fmap_Some in Hj as ([id2 f2] & Heq & Hj).
    cbn in Heq. subst id2.
    destruct (Hh i _ _ Hi) as (E1 & _). destruct (Hh j _ _ Hj) as (E2 & _). lia.
  - intros id v Hin.
    destruct (Hids id) as (i & f & Hi).
    { apply list_elem_of_fmap. by exists (id, v). }
    exists f. destruct (Hh i _ _ Hi) as (_ & _ & ? & ?). done.
  - intros id id' g Hin Hin' Hcb Hcb'.
    destruct (Hids id Hin) as (i & f & Hi). destruct (Hids id' Hin') as (i' & f' & Hi').
    destruct (Hh i _ _ Hi) as (E1 & E2 & E3 & _).
    destruct (Hh i' _ _ Hi') as (E1' & E2' & E3' & _).
    assert (f = f') by congruence. lia.
  - exists c2. split; [done|].
    intros i id f v method expired Hi Hv.
    apply send_resume_result. apply (Hres id v f).
    + rewrite Hperm. apply list_elem_of_lookup. exists i.
      apply lookup_zip_with_Some. exists id, v. split; [done|]. split; [|done].
      apply list_lookup_fmap_Some. by exists (id, f).
    + by destruct (Hh i _ _ Hi) as (_ & _ & ? & _).
Qed.

Lemma concurrent_sends_resolve_by_id_witness :
  connected page_client = true ∧
  length two_payloads = length two_requests ∧
  ∃ handles c1,
    send_all two_requests page_client = (Ok handles, c1) ∧
    length handles = length two_requests ∧
    ∀ order,
      Permutation order (zip (handles.*1) two_payloads) →
      ∃ c2,
        for_each (map (λ r, reply_frame r.1 r.2) order) handle_message c1
          = (Ok tt, c2) ∧
        ∀ i id f v method expired,
          handles !! i = Some (id, f) →
          two_payloads !! i = Some v →
          send_resume method id f expired c2 = (Ok v, c2).
Proof.
  split; [reflexivity|]. split; [reflexivity|].
  apply (proj1 concurrent_sends_resolve_by_id page_client two_requests two_payloads);
    reflexivity.
Defined.

(** ** Timeouts *)


Lemma listen_loop_receive_ok m c :
  handle_message m c = (Ok tt, c) →
  listen_loop_receive m c = (Ok tt, c).
Proof.
  intros H. unfold listen_loop_receive.
  destruct (_listen_task c) as [[|]|]; try done. by rewrite H.
Qed.



(** ** [close] *)

Lemma cancel_pending_all l :
  ∀ c,
    ∃ F,
      for_each l cancel_if_pending c = (Ok tt, with_futures F c) ∧
      (∀ g, g ∈ l → futures c !! g = Some Pending → F !! g = Some Cancelled) ∧
      (∀ g s, futures c !! g = Some s → done s = true → F !! g = Some s) ∧
      (∀ g, g ∉ l → F !! g = futures c !! g).
Proof.
  induction l as [|x l IH]; intros c.
  - exists (futures c). split; [by destruct c|]. split; [|done].
    intros g Hg. by apply elem_of_nil in Hg.
  - cbn [for_each]. unfold bind at 1.
    assert (∃ F1,
      cancel_if_pending x c = (Ok tt, with_futures F1 c) ∧
      (futures c !! x = Some Pending → F1 !! x = Some Cancelled) ∧
      (∀ g s, futures c !! g = Some s → done s = true → F1 !! g = Some s) ∧
      (∀ g, g ≠ x → F1 !! g = futures c !! g) ∧
      (∀ g, F1 !! g = Some Pending → futures c !! g = Some Pending))
      as (F1 & Hx & Hp & Hd & Hne & Hback).
    { unfold cancel_if_pending, cancel, future_done. unfold_m.
      destruct (futures c !! x) as [s|] eqn:Hfx.
      - destruct (done s) eqn:Hs; cbn.
        + exists (futures c). split; [by destruct c|]. split.
          * intros [= ->]. done.
          * done.
        + rewrite Hfx, Hs. cbn. exists (<[x := Cancelled]> (futures c)).
          split; [done|]. split; [intros _; apply lookup_insert_eq|]. split; [|split].
          * intros g s' Hg Hs'. rewrite lookup_insert_ne; [done|]. congruence.
          * intros g Hg. by apply lookup_insert_ne.
          * intros g. rewrite lookup_insert. case_decide; [done|done].
      - cbn. rewrite Hfx. cbn. exists (<[x := Cancelled]> (futures c)).
        split; [done|]. split; [done|]. split; [|split].
        + intros g s' Hg Hs'. rewrite lookup_insert_ne; [done|]. congruence.
        + intros g Hg. by apply lookup_insert_ne.
        + intros g. rewrite lookup_insert. case_decide; [done|done]. }
    rewrite Hx.
    destruct (IH (with_futures F1 c)) as (F & Hrun & Hp' & Hd' & Hne').
    exists F. split; [exact Hrun|]. split; [|split].
    + intros g Hg Hpend. destruct (decide (g ∈ l)) as [Hin|Hnin].
      * destruct (F1 !! g) as [s|] eqn:HF1.
        -- destruct (done s) eqn:Hs.
           ++ destruct (decide (g = x)) as [->|Hgx].
              ** rewrite (Hd' x s HF1 Hs). rewrite (Hp Hpend) in HF1. done.
              ** rewrite Hne in HF1 by done. rewrite Hpend in HF1.
                 inversion HF1; subst s. done.
           ++ destruct s; try done. by apply Hp'.
        -- destruct (decide (g = x)) as [->|Hgx].
           ++ rewrite (Hp Hpend) in HF1. done.
           ++ rewrite Hne in HF1 by done. congruence.
      * apply elem_of_cons in Hg as [->|Hg]; [|done].
        rewrite Hne' by done. cbn. by apply Hp.
    + intros g s Hg Hs. apply Hd'; [|done]. cbn. by eapply Hd.
    + intros g Hg. apply not_elem_of_cons in Hg as [Hgx Hgl].
      rewrite Hne' by done. cbn. by apply Hne.
Qed.

Lemma for_each_cancel l :
  ∀ c, for_each l cancel_if_pending c
       = (Ok tt, with_futures (cancel_all_in l (futures c)) c).
Proof.
  induction l as [|x l IH]; intros c.
  - cbn. by destruct c.
  - cbn [for_each cancel_all_in]. unfold bind at 1.
    unfold cancel_if_pending at 1, cancel, future_done. unfold_m.
    destruct (futures c !! x) as [s|] eqn:Hfx; cbn.
    + destruct (done s) eqn:Hs; cbn.
      * apply IH.
      * rewrite Hfx, Hs. cbn. rewrite IH. reflexivity.
    + rewrite Hfx. cbn. rewrite IH. reflexivity.
Qed.

Lemma close_spec c :
  ∃ F,
    close c =
      (Ok tt,
       {| ws := None; _callbacks := ∅; _event_handlers := _event_handlers c;
          _id_counter := _id_counter c; _listen_task := None; _connected := false;
          _ws_url := _ws_url c; futures := F; next_future := next_future c;
          tasks := tasks c; sent := sent c; invoked := invoked c |}) ∧
    (∀ k g, _callbacks c !! k = Some g → futures c !! g = Some Pending →
       F !! g = Some Cancelled) ∧
    (∀ g s, futures c !! g = Some s → done s = true → F !! g = Some s) ∧
    (∀ g, (∀ k, _callbacks c !! k ≠ Some g) → F !! g = futures c !! g).
Proof.
  destruct (cancel_pending_all (map snd (map_to_list (_callbacks c))) c)
    as (F & Hrun & Hp & Hd & Hne).
  rewrite for_each_cancel in Hrun.
  assert (F = cancel_all_in (map snd (map_to_list (_callbacks c))) (futures c))
    as HF by (by inversion Hrun).
  exists F. split; [|split; [|split]].
  - unfold close, bind, gets, modify.
    cbn -[for_each cancel_if_pending].
    destruct (_listen_task c) eqn:Htask; cbn -[for_each cancel_if_pending];
      destruct (ws c) eqn:Hws; cbn -[for_each cancel_if_pending];
      rewrite for_each_cancel; cbn; rewrite <- HF; clear -Htask Hws;
      destruct c; cbn in *; by subst.
  - intros k g Hk Hg. apply Hp; [|done].
    apply list_elem_of_fmap. exists (k, g). split; [done|].
    by apply elem_of_map_to_list.
  - done.
  - intros g Hg. apply Hne. intros Hin.
    apply list_elem_of_fmap in Hin as ([k g'] & -> & Hin).
    apply elem_of_map_to_list in Hin. by apply (Hg k).
Qed.

Lemma send_resume_cancelled method msg_id future expired c :
  futures c !! future = Some Cancelled →
  send_resume method msg_id future expired c = (Raise CancelledError, c).
Proof.
  intros Hf. unfold send_resume, wait_for. unfold_m. by rewrite Hf.
Qed.

(** C3, as the code has it.  [close] is idempotent; after it [_callbacks]
    is empty; the future of every command that was pending is cancelled,
    so that its caller gets [CancelledError], which is not a [CDPError];
    and a later [send] raises [RuntimeError] (not connected) before it
    allocates an id or writes anything. *)
Theorem close_cancels_pending_commands :
  ∀ c,
    ∃ c',
      close c = (Ok tt, c') ∧
      close c' = (Ok tt, c') ∧
      _callbacks c' = ∅ ∧
      (∀ k g,
         _callbacks c !! k = Some g →
         futures c !! g = Some Pending →
         futures c' !! g = Some Cancelled ∧
         ∀ method expired,
           send_resume method k g expired c' = (Raise CancelledError, c')) ∧
      (∀ code text, CancelledError ≠ CDPError code text) ∧
      ∀ method params,
        send_begin method params c'
          = (Raise (RuntimeError "CDP client not connected"), c').
Proof.
  intros c. destruct (close_spec c) as (F & Hclose & Hp & Hd & Hne).
  eexists. split; [exact Hclose|].
  split; [|split; [done|split; [|split; [done|]]]].
  - match goal with |- close ?c' = _ => destruct (close_spec c') as (F' & -> & _ & _ & Hne') end.
    cbn in *. do 2 f_equal. apply map_eq. intros g. apply Hne'.
    intros k. by rewrite lookup_empty.
  - intros k g Hk Hg. pose proof (Hp k g Hk Hg) as HF.
    split; [done|]. intros method expired. by apply send_resume_cancelled.
  - intros method params. by apply send_begin_not_connected.
Qed.

Lemma close_cancels_pending_commands_witness :
  ∃ c',
    close (send_begin "Page.enable" None page_client).2 = (Ok tt, c') ∧
    close c' = (Ok tt, c') ∧
    _callbacks c' = ∅ ∧
    futures c' !! 0%nat = Some Cancelled ∧
    send_begin "Page.enable" None c'
      = (Raise (RuntimeError "CDP client not connected"), c').
Proof.
  destruct (close_cancels_pending_commands (send_begin "Page.enable" None page_client).2)
    as (c' & H1 & H2 & H3 & H4 & _ & H5).
  exists c'. split; [exact H1|]. split; [exact H2|]. split; [exact H3|].
  split; [|apply H5].
  apply (H4 1 0%nat); reflexivity.
Defined.

(** The error of a [send] on a closed client is a [RuntimeError]; it is
    not the [ConnectionError] of a connection that could not be made. *)
Lemma send_after_close_not_connection_error :
  (send_begin "Page.enable" None (close page_client).2).1
    = Raise (RuntimeError "CDP client not connected") ∧
  ¬ ∃ msg, (send_begin "Page.enable" None (close page_client).2).1
           = Raise (ConnectionError msg).
Proof.
  assert ((send_begin "Page.enable" None (close page_client).2).1
          = Raise (RuntimeError "CDP client not connected")) as H.
  { destruct (close_spec page_client) as (F & -> & _). reflexivity. }
  split; [exact H|]. intros [msg Hmsg]. rewrite H in Hmsg. discriminate.
Qed.

(** ** Events *)

Lemma handle_message_event name params c :
  handle_message (event_frame name params) c =
    (Ok tt,
     with_tasks
       (tasks c ++ map (λ h, (h, default (JObj []) params))
                       (default [] (_event_handlers c !! name))) c).
Proof.
  unfold handle_message, event_frame.
  destruct params as [p|]; cbn; unfold_m; cbn;
    (destruct (_event_handlers c !! name) as [hs|]; cbn;
     [apply for_each_create_task | rewrite app_nil_r; by destruct c]).
Qed.

Lemma connect_not_connected ws_url c :
  connected c = false →
  connect ws_url None c =
    (Ok tt,
     with_listen_task (Some Running)
       (with_connected true
          (with_ws (Some {| endpoint := ws_url; closed := false |})
             (with_ws_url (Some ws_url) c)))).
Proof.
  intros Hc. unfold connect. unfold_m. rewrite Hc. reflexivity.
Qed.

(** C9, as the code has it.  [close] leaves [_event_handlers] as it is, and
    so does a later [connect]: an event that arrives on the new connection
    gets one task per handler that was registered under its name before
    the [close]. *)
Theorem close_keeps_subscriptions :
  ∀ c ws_url,
    _event_handlers (close c).2 = _event_handlers c ∧
    _event_handlers (connect ws_url None (close c).2).2 = _event_handlers c ∧
    ∀ name params,
      listen_loop_receive (event_frame name params)
        (connect ws_url None (close c).2).2
      = (Ok tt,
         with_tasks
           (tasks c ++ map (λ h, (h, default (JObj []) params))
                           (default [] (_event_handlers c !! name)))
           (connect ws_url None (close c).2).2).
Proof.
  intros c ws_url. destruct (close_spec c) as (F & -> & _).
  cbn [snd]. rewrite connect_not_connected by reflexivity. cbn [snd].
  split; [reflexivity|]. split; [reflexivity|].
  intros name params. unfold listen_loop_receive. cbn [_listen_task with_listen_task].
  by rewrite handle_message_event.
Qed.

(** A handler registered before [close] is still registered after it, and
    an event on the next connection runs it. *)
Lemma close_keeps_subscriptions_counterexample :
  _event_handlers (close subscribed_client).2 !! "Page.loadEventFired"
    = Some [Callback 7] ∧
  invoked
    (run_calls [Close; Connect "ws://localhost:9222/devtools/page/T2" None;
                Loop (Arrive (event_frame "Page.loadEventFired" None)); Loop Turn]
       subscribed_client)
    = [(7%nat, JObj [])].
Proof.
  split.
  - destruct (close_spec subscribed_client) as (F & -> & _). reflexivity.
  - vm_compute. reflexivity.
Qed.

(** ** What a call leaves alone *)

Section stable.
Context (R : relation client) `{!PreOrder R}.

Lemma stable_ret {A} (a : A) : stable R (ret a).
Proof. intros c. reflexivity. Qed.

Lemma stable_raise {A} e : stable R (raise (A := A) e).
Proof. intros c. reflexivity. Qed.

Lemma stable_lift {A} (r : res A) : stable R (lift r).
Proof. intros c. reflexivity. Qed.

Lemma stable_gets {A} (f : client → A) : stable R (gets f).
Proof. intros c. reflexivity. Qed.

Lemma stable_modify f : (∀ c, R c (f c)) → stable R (modify f).
Proof. intros H c. apply H. Qed.

Lemma stable_bind {A B} (m : M A) (k : A → M B) :
  stable R m → (∀ a, stable R (k a)) → stable R (bind m k).
Proof.
  intros Hm Hk c. unfold bind. specialize (Hm c).
  destruct (m c) as [[a|e] c']; cbn in *; [|done].
  etransitivity; [exact Hm|]. apply Hk.
Qed.

Lemma stable_for_each {A} (xs : list A) (body : A → M unit) :
  (∀ x, stable R (body x)) → stable R (for_each xs body).
Proof.
  intros Hb. induction xs as [|x xs IH]; cbn.
  - apply stable_ret.
  - apply stable_bind; [apply Hb|]. intros _. apply IH.
Qed.

Lemma stable_finally {A} (body : M A) cleanup :
  stable R body → stable R cleanup → stable R (finally body cleanup).
Proof.
  intros Hb Hc c. unfold finally. specialize (Hb c).
  destruct (body c) as [r c']. specialize (Hc c').
  destruct (cleanup c') as [[u|e] c'']; cbn in *; by etransitivity.
Qed.

(** Changes to the futures, the bookkeeping of commands, the handler
    tasks and the ghost logs are invisible to [R]. *)
Hypothesis R_futures : ∀ c v, R c (with_futures v c).
Hypothesis R_next_future : ∀ c v, R c (with_next_future v c).
Hypothesis R_callbacks : ∀ c v, R c (with_callbacks v c).
Hypothesis R_tasks : ∀ c v, R c (with_tasks v c).
Hypothesis R_sent : ∀ c v, R c (with_sent v c).
Hypothesis R_invoked : ∀ c v, R c (with_invoked v c).
Hypothesis R_event_handlers : ∀ c v, R c (with_event_handlers v c).

Lemma stable_new_future : stable R new_future.
Proof.
  intros c. unfold new_future. cbn.
  etransitivity; [apply (R_futures c)|apply R_next_future].
Qed.

Lemma stable_future_done f : stable R (future_done f).
Proof. apply stable_gets. Qed.

Lemma stable_set_future f s : stable R (set_future f s).
Proof.
  apply stable_bind; [apply stable_future_done|]. intros [|].
  - apply stable_raise.
  - apply stable_modify. intros c. apply R_futures.
Qed.

Lemma stable_cancel f : stable R (cancel f).
Proof.
  apply stable_bind; [apply stable_future_done|]. intros [|].
  - apply stable_ret.
  - apply stable_modify. intros c. apply R_futures.
Qed.

Lemma stable_cancel_if_pending f : stable R (cancel_if_pending f).
Proof.
  apply stable_bind; [apply stable_future_done|]. intros [|]; cbn.
  - apply stable_ret.
  - apply stable_cancel.
Qed.

Lemma stable_wait_for f expired : stable R (wait_for f expired).
Proof.
  apply stable_bind; [apply stable_gets|]. intros [[| | |]|];
    try apply stable_ret; try apply stable_raise;
    (apply stable_bind; [apply stable_cancel|intros; apply stable_raise]).
Qed.

Lemma stable_create_task h params : stable R (create_task h params).
Proof. apply stable_modify. intros c. apply R_tasks. Qed.

Lemma stable_handle_message m : stable R (handle_message m).
Proof.
  unfold handle_message. destruct (json_loads m) as [data|]; [|apply stable_ret].
  apply stable_bind; [apply stable_lift|]. intros has_id.
  apply stable_bind.
  - destruct has_id; [|apply stable_ret].
    apply stable_bind; [apply stable_lift|]. intros msg_id.
    apply stable_bind; [apply stable_lift|]. intros key.
    apply stable_bind; [apply stable_gets|]. intros callbacks.
    destruct key as [n| |]; try apply stable_ret.
    destruct (callbacks !! n) as [future|]; [|apply stable_ret].
    apply stable_bind; [apply stable_modify; intros c; apply R_callbacks|].
    intros _. apply stable_bind; [apply stable_lift|]. intros [|].
    + repeat (apply stable_bind; [apply stable_lift|]; intros ?).
      apply stable_set_future.
    + apply stable_bind; [apply stable_lift|]. intros ?. apply stable_set_future.
  - intros _. apply stable_bind; [apply stable_lift|]. intros [|]; [|apply stable_ret].
    repeat (apply stable_bind; [apply stable_lift|]; intros ?).
    apply stable_bind; [apply stable_gets|]. intros handlers.
    match goal with |- stable _ (match ?k with _ => _ end) => destruct k as [|name|] end;
      try apply stable_ret.
    destruct (handlers !! name) as [hs|]; [|apply stable_ret].
    apply stable_for_each. intros h. apply stable_create_task.
Qed.

Lemma stable_send_resume method msg_id f expired :
  stable R (send_resume method msg_id f expired).
Proof.
  intros c. unfold send_resume. pose proof (stable_wait_for f expired c) as H.
  destruct (wait_for f expired c) as [[v|e] c']; cbn in *; [done|].
  destruct e; try done. cbn. etransitivity; [exact H|]. apply R_callbacks.
Qed.

Lemma stable_on event h : stable R (on event h).
Proof. apply stable_modify. intros c. apply R_event_handlers. Qed.

Lemma stable_off event h : stable R (off event h).
Proof.
  apply stable_modify. intros c.
  destruct (_event_handlers c !! event); [|reflexivity].
  destruct h; apply R_event_handlers.
Qed.

Lemma stable_wait_for_event_begin event predicate :
  stable R (wait_for_event_begin event predicate).
Proof.
  apply stable_bind; [apply stable_new_future|]. intros f.
  apply stable_bind; [apply stable_on|]. intros _. apply stable_ret.
Qed.

Lemma stable_wait_for_event_resume event f predicate expired :
  stable R (wait_for_event_resume event f predicate expired).
Proof. apply stable_finally; [apply stable_wait_for|apply stable_off]. Qed.

Lemma stable_run_handler h params : stable R (run_handler h params).
Proof.
  destruct h as [name|f predicate]; cbn.
  - apply stable_modify. intros c. apply R_invoked.
  - destruct (accepts predicate params); [|apply stable_ret].
    apply stable_bind; [apply stable_future_done|]. intros [|]; cbn.
    + apply stable_ret.
    + apply stable_set_future.
Qed.

Lemma stable_run_task : stable R run_task.
Proof.
  intros c. unfold run_task. destruct (tasks c) as [|[h params] rest] eqn:Ht.
  - reflexivity.
  - cbn. etransitivity; [apply (R_tasks c rest)|]. apply stable_run_handler.
Qed.
End stable.

#[local] Instance same_counter_preorder : PreOrder same_counter.
Proof.
  split.
  - intros c. reflexivity.
  - intros c1 c2 c3 H12 H23. unfold same_counter in *. congruence.
Qed.

#[local] Instance stays_disconnected_preorder : PreOrder stays_disconnected.
Proof.
  split.
  - intros c H. exact H.
  - intros c1 c2 c3 H12 H23 H. apply H23, H12, H.
Qed.

Lemma stable_close R `{!PreOrder R} :
  (∀ c v, R c (with_futures v c)) →
  (∀ c v, R c (with_callbacks v c)) →
  (∀ c, R c (with_connected false c)) →
  (∀ c, R c (with_listen_task None c)) →
  (∀ c, R c (with_ws None c)) →
  stable R close.
Proof.
  intros Hf Hcb Hcon Hlt Hws. unfold close.
  apply stable_bind; [done|apply stable_modify; intros; apply Hcon|]. intros _.
  apply stable_bind; [done|by apply stable_gets|]. intros task.
  apply stable_bind; [done| |].
  { destruct task; [apply stable_modify; apply Hlt|by apply stable_ret]. }
  intros _. apply stable_bind; [done|by apply stable_gets|]. intros w.
  apply stable_bind; [done| |].
  { destruct w; [apply stable_modify; apply Hws|by apply stable_ret]. }
  intros _. apply stable_bind; [done|by apply stable_gets|]. intros callbacks.
  apply stable_bind; [done| |].
  { apply stable_for_each; [done|]. intros f. by apply stable_cancel_if_pending. }
  intros _. apply stable_modify. intros c. apply Hcb.
Qed.

Lemma stable_connect R `{!PreOrder R} ws_url dial :
  stable R close →
  (∀ c v, R c (with_ws_url v c)) →
  (dial = None → ∀ c, R c (with_listen_task (Some Running)
                             (with_connected true
                                (with_ws (Some {| endpoint := ws_url; closed := false |}) c)))) →
  stable R (connect ws_url dial).
Proof.
  intros Hclose Hurl Hdial. unfold connect.
  apply stable_bind; [done|by apply stable_gets|]. intros b.
  apply stable_bind; [done| |].
  { destruct b; [done|by apply stable_ret]. }
  intros _. apply stable_bind; [done|apply stable_modify; intros; apply Hurl|].
  intros _. destruct dial as [e|]; [by apply stable_raise|].
  intros c. unfold bind, modify. cbn. by apply Hdial.
Qed.

Lemma stable_listen_loop_receive R `{!PreOrder R} m :
  (∀ c v, R c (with_futures v c)) →
  (∀ c v, R c (with_callbacks v c)) →
  (∀ c v, R c (with_tasks v c)) →
  (∀ c, R c (with_listen_task (Some Finished) (with_connected false c))) →
  stable R (listen_loop_receive m).
Proof.
  intros Hf Hcb Ht Hend c. unfold listen_loop_receive.
  destruct (_listen_task c) as [[|]|]; try reflexivity.
  pose proof (stable_handle_message R Hf Hcb Ht m c) as H.
  destruct (handle_message m c) as [[u|e] c']; cbn in *; [done|].
  etransitivity; [exact H|apply Hend].
Qed.

(** Only [send] moves the id counter: by one when it allocates an id, not
    at all when it raises. *)
Lemma run_call_counter k c :
  match allocated k c with
  | Some i => i = _id_counter c + 1 ∧ _id_counter (run_call k c) = i
  | None => _id_counter (run_call k c) = _id_counter c
  end.
Proof.
  assert (stable same_counter close) as Hclose
    by (apply stable_close; try apply _; intros; reflexivity).
  destruct k as [ws_url dial| |method params|method msg_id f expired|event name
                |event h|event predicate|event f predicate expired|[m|]|clean
                |method params e];
    cbn [allocated run_call run_tick].
  - apply (stable_connect same_counter); try done; intros; reflexivity.
  - apply Hclose.
  - destruct (connected c) eqn:Hc.
    + rewrite send_begin_connected by done. cbn. done.
    + rewrite send_begin_not_connected by done. cbn. done.
  - apply (stable_send_resume same_counter); intros; reflexivity.
  - apply (stable_on same_counter); intros; reflexivity.
  - apply (stable_off same_counter); intros; reflexivity.
  - apply (stable_wait_for_event_begin same_counter); intros; reflexivity.
  - apply (stable_wait_for_event_resume same_counter); intros; reflexivity.
  - apply (stable_listen_loop_receive same_counter); intros; reflexivity.
  - apply (stable_run_task same_counter); intros; reflexivity.
  - unfold listen_loop_closed.
    destruct (_listen_task c) as [[|]|], (ws c), clean; reflexivity.
  - destruct (connected c) eqn:Hc.
    + rewrite send_unwritten_connected by done. cbn. done.
    + by rewrite send_unwritten_not_connected.
Qed.

(** ** Command ids *)

Lemma allocated_ids_increasing ks :
  ∀ c,
    StronglySorted Z.lt (allocated_ids ks c) ∧
    Forall (λ i, _id_counter c < i) (allocated_ids ks c).
Proof.
  induction ks as [|k ks IH]; intros c; cbn [allocated_ids].
  - split; constructor.
  - pose proof (run_call_counter k c) as Hk.
    destruct (IH (run_call k c)) as [Hsorted Hall].
    destruct (allocated k c) as [i|].
    + destruct Hk as [-> Hctr]. rewrite Hctr in Hall. split.
      * constructor; [done|]. exact Hall.
      * constructor; [lia|]. eapply Forall_impl; [exact Hall|]. cbn. intros; lia.
    + rewrite Hk in Hall. done.
Qed.

Lemma increasing_NoDup (l : list Z) : StronglySorted Z.lt l → NoDup l.
Proof.
  induction 1 as [|x l Hs IH Hx]; constructor; [|done].
  intros Hin. rewrite Forall_forall in Hx. specialize (Hx x Hin). lia.
Qed.

(** C10.  A call moves [_id_counter] only when it is a [send] that
    allocates an id, and then by one; [connect] and [close] leave it as it
    is.  So along every history of a client, whatever connections it
    opens and closes, the ids allocated are strictly increasing, above the
    counter the history started from, and pairwise distinct. *)
Theorem command_ids_strictly_increase :
  (∀ k c,
     match allocated k c with
     | Some i => i = _id_counter c + 1 ∧ _id_counter (run_call k c) = i
     | None => _id_counter (run_call k c) = _id_counter c
     end) ∧
  (∀ ws_url dial c, _id_counter (connect ws_url dial c).2 = _id_counter c) ∧
  (∀ c, _id_counter (close c).2 = _id_counter c) ∧
  (∀ ks c,
     StronglySorted Z.lt (allocated_ids ks c) ∧
     NoDup (allocated_ids ks c) ∧
     Forall (λ i, _id_counter c < i) (allocated_ids ks c)).
Proof.
  split; [exact run_call_counter|]. split; [|split].
  - intros ws_url dial c. exact (run_call_counter (Connect ws_url dial) c).
  - intros c. exact (run_call_counter Close c).
  - intros ks c. destruct (allocated_ids_increasing ks c) as [Hs Hall].
    split; [done|]. split; [by apply increasing_NoDup|done].
Qed.

(** Ids allocated before and after a reconnection. *)
Example ids_across_reconnect :
  allocated_ids
    [Connect "ws://localhost:9222/devtools/page/T1" None;
     SendBegin "Page.enable" None; SendBegin "Runtime.enable" None;
     Close; SendBegin "Page.enable" None;
     Connect "ws://localhost:9222/devtools/page/T2" None;
     SendBegin "Page.enable" None]
    init
  = [1; 2; 3].
Proof. vm_compute. reflexivity. Qed.

(** ** Loss of the connection *)

Lemma run_call_stays_disconnected k c :
  not_connect k → stays_disconnected c (run_call k c).
Proof.
  intros Hk.
  destruct k as [ws_url dial| |method params|method msg_id f expired|event name
                |event h|event predicate|event f predicate expired|[m|]|clean
                |method params e];
    cbn [run_call run_tick]; try done.
  - apply (stable_close stays_disconnected); try (intros ? ? H; exact H).
    + intros c0 _. reflexivity.
    + intros c0 H. exact H.
    + intros c0 _. unfold connected. cbn. apply andb_false_r.
  - intros Hc. by rewrite send_begin_not_connected.
  - apply (stable_send_resume stays_disconnected); intros ? ? H; exact H.
  - apply (stable_on stays_disconnected); intros ? ? H; exact H.
  - apply (stable_off stays_disconnected); intros ? ? H; exact H.
  - apply (stable_wait_for_event_begin stays_disconnected); intros ? ? H; exact H.
  - apply (stable_wait_for_event_resume stays_disconnected); intros ? ? H; exact H.
  - apply (stable_listen_loop_receive stays_disconnected); try (intros ? ? H; exact H).
    intros c0 _. reflexivity.
  - apply (stable_run_task stays_disconnected); intros ? ? H; exact H.
  - unfold listen_loop_closed. intros Hc.
    destruct (_listen_task c) as [[|]|]; try done.
    destruct (ws c) as [w|] eqn:Hw; [|done].
    destruct clean; unfold connected; cbn; by rewrite ?andb_false_r.
  - intros Hc. by rewrite send_unwritten_not_connected.
Qed.

Lemma run_calls_stay_disconnected ks :
  ∀ c, Forall not_connect ks → connected c = false →
       connected (run_calls ks c) = false.
Proof.
  induction ks as [|k ks IH]; intros c Hks Hc; [done|].
  apply Forall_cons in Hks as [Hk Hks]. cbn. apply IH; [done|].
  by apply run_call_stays_disconnected.
Qed.

(** C4, as the code has it.  When the transport closes under the listen
    loop, or when the loop ends on an exception of [_handle_message],
    [connected] becomes false; the loss of the transport leaves
    [_callbacks] and every future as they are, so the commands that were
    pending stay pending; and no call other than [connect] makes the
    client connected again. *)
Theorem connection_loss_disconnects :
  (∀ c clean w,
     _listen_task c = Some Running →
     ws c = Some w →
     connected (listen_loop_closed clean c).2 = false ∧
     _callbacks (listen_loop_closed clean c).2 = _callbacks c ∧
     futures (listen_loop_closed clean c).2 = futures c) ∧
  (∀ c m e c',
     _listen_task c = Some Running →
     handle_message m c = (Raise e, c') →
     connected (listen_loop_receive m c).2 = false ∧
     _listen_task (listen_loop_receive m c).2 = Some Finished) ∧
  (∀ ks c,
     Forall not_connect ks →
     connected c = false →
     connected (run_calls ks c) = false).
Proof.
  split; [|split].
  - intros c clean w Htask Hws. unfold listen_loop_closed. rewrite Htask, Hws.
    destruct clean; unfold connected; cbn; by rewrite ?andb_false_r.
  - intros c m e c' Htask Hm. unfold listen_loop_receive. rewrite Htask, Hm.
    split; reflexivity.
  - apply run_calls_stay_disconnected.
Qed.

Lemma connection_loss_disconnects_witness :
  _listen_task waiting_client = Some Running ∧
  ws waiting_client
    = Some {| endpoint := "ws://localhost:9222/devtools/page/T1"; closed := false |} ∧
  (connected (listen_loop_closed false waiting_client).2 = false ∧
   _callbacks (listen_loop_closed false waiting_client).2 = _callbacks waiting_client ∧
   futures (listen_loop_closed false waiting_client).2 = futures waiting_client) ∧
  (handle_message (Json (JInt 42)) waiting_client = (Raise TypeError, waiting_client) ∧
   connected (listen_loop_receive (Json (JInt 42)) waiting_client).2 = false ∧
   _listen_task (listen_loop_receive (Json (JInt 42)) waiting_client).2 = Some Finished) ∧
  Forall not_connect [SendBegin "Page.enable" None; Loop Turn] ∧
  connected init = false ∧
  connected (run_calls [SendBegin "Page.enable" None; Loop Turn] init) = false.
Proof.
  split; [reflexivity|]. split; [reflexivity|]. split.
  { apply (proj1 connection_loss_disconnects waiting_client false
             {| endpoint := "ws://localhost:9222/devtools/page/T1"; closed := false |});
      reflexivity. }
  split.
  { split; [reflexivity|].
    apply (proj1 (proj2 connection_loss_disconnects) waiting_client (Json (JInt 42))
             TypeError waiting_client); reflexivity. }
  split; [repeat constructor|]. split; [reflexivity|].
  apply (proj2 (proj2 connection_loss_disconnects)); [repeat constructor|reflexivity].
Defined.

(** The command that was pending when the transport was lost is still
    pending afterwards, and still in [_callbacks]: it is not cancelled. *)
Lemma connection_loss_keeps_pending_counterexample :
  _callbacks waiting_client !! 1 = Some 0%nat ∧
  futures waiting_client !! 0%nat = Some Pending ∧
  connected (listen_loop_closed false waiting_client).2 = false ∧
  _callbacks (listen_loop_closed false waiting_client).2 !! 1 = Some 0%nat ∧
  futures (listen_loop_closed false waiting_client).2 !! 0%nat = Some Pending ∧
  futures (listen_loop_closed false waiting_client).2 !! 0%nat ≠ Some Cancelled.
Proof.
  repeat split; try reflexivity. discriminate.
Qed.

(** ** Malformed frames *)

(** C7.  A frame that [json.loads] rejects is discarded and the loop goes
    on.  A frame that is JSON but not an object is not: [42] makes
    ["id" in data] raise [TypeError], which ends the listen loop, so that
    the event that follows is not dispatched, although it would have been
    without the bad frame.  An error reply whose [error] is not an object
    ends the loop as well, after its command was removed from
    [_callbacks] without being resolved. *)
Theorem non_object_frame_ends_listen_loop :
  (∀ text c,
     handle_message (NotJson text) c = (Ok tt, c) ∧
     listen_loop_receive (NotJson text) c = (Ok tt, c)) ∧
  handle_message (Json (JInt 42)) subscribed_client
    = (Raise TypeError, subscribed_client) ∧
  _listen_task (listen_loop_receive (Json (JInt 42)) subscribed_client).2
    = Some Finished ∧
  tasks (run_calls [Loop (Arrive (Json (JInt 42)));
                    Loop (Arrive (event_frame "Page.loadEventFired" None))]
           subscribed_client) = [] ∧
  tasks (run_calls [Loop (Arrive (NotJson "{"));
                    Loop (Arrive (event_frame "Page.loadEventFired" None))]
           subscribed_client) = [(Callback 7, JObj [])] ∧
  (let c := (listen_loop_receive
               (Json (JObj [("id", JInt 1); ("error", JStr "boom")]))
               waiting_client).2 in
   _listen_task c = Some Finished ∧
   _callbacks c !! 1 = None ∧
   futures c !! 0%nat = Some Pending).
Proof.
  split.
  - intros text c. split; [reflexivity|]. by apply listen_loop_receive_ok.
  - repeat split; vm_compute; reflexivity.
Qed.

(** ** Domains of a session *)

#[local] Instance same_sent_preorder : PreOrder same_sent.
Proof.
  split.
  - intros c. reflexivity.
  - intros c1 c2 c3 H12 H23. unfold same_sent in *. congruence.
Qed.


Lemma send_connected_sent method params arrivals c :
  connected c = true →
  sent (send method params arrivals c).2
  = sent c ++ [JObj [("id", JInt (_id_counter c + 1)); ("method", JStr method);
                     ("params", JObj (default [] params))]].
Proof.
  intros Hc. unfold send. rewrite bind_run.
  rewrite send_begin_connected by done. cbn [fst snd].
  match goal with
  | |- sent (?m ?c1).2 = _ =>
      assert (stable same_sent m) as Hst; [|exact (Hst c1)]
  end.
  apply stable_bind; [apply _| |].
  - apply stable_for_each; [apply _|]. intros m.
    apply stable_listen_loop_receive; try apply _; intros; reflexivity.
  - intros _. apply stable_send_resume; try apply _; intros; reflexivity.
Qed.







(** ** Waiting for an event *)

Lemma find_app_first {A} (P : A → bool) (l1 l2 : list A) :
  List.find P (l1 ++ l2) =
    match List.find P l1 with
    | Some x => Some x
    | None => List.find P l2
    end.
Proof.
  induction l1 as [|x l1 IH]; cbn; [done|]. by destruct (P x).
Qed.

Lemma first_matching_event_snoc event predicate seen name params :
  first_matching_event event predicate (seen ++ [(name, params)]) =
    match first_matching_event event predicate seen with
    | Some v => Some v
    | None =>
        if String.eqb name event && accepts predicate params then Some params
        else None
    end.
Proof.
  unfold first_matching_event. rewrite find_app_first.
  destruct (List.find _ seen); cbn; [done|].
  by destruct (String.eqb name event && accepts predicate params).
Qed.

Lemma pending_params_app f ts1 ts2 :
  pending_params f (ts1 ++ ts2) = pending_params f ts1 ++ pending_params f ts2.
Proof.
  induction ts1 as [|[[n|g q] p] ts1 IH]; cbn; [done|done|].
  destruct (Nat.eqb g f); cbn; by rewrite IH.
Qed.

Lemma pending_params_none f hs params :
  (∀ p, WaitHandler f p ∉ hs) →
  pending_params f (map (λ h, (h, params)) hs) = [].
Proof.
  induction hs as [|[n|g q] hs IH]; intros Hnot; cbn; [done| |].
  - apply IH. intros p Hin. apply (Hnot p). by right.
  - destruct (Nat.eqb g f) eqn:Hg.
    + apply Nat.eqb_eq in Hg. subst g. exfalso. apply (Hnot q). left.
    + apply IH. intros p Hin. apply (Hnot p). by right.
Qed.

Lemma pending_params_unused f ts :
  (∀ p params, (WaitHandler f p, params) ∉ ts) →
  pending_params f ts = [].
Proof.
  induction ts as [|[[n|g q] p] ts IH]; intros Hnot; cbn; [done| |].
  - apply IH. intros q params Hin. apply (Hnot q params). by right.
  - destruct (Nat.eqb g f) eqn:Hg.
    + apply Nat.eqb_eq in Hg. subst g. exfalso. apply (Hnot q p). left.
    + apply IH. intros q' params Hin. apply (Hnot q' params). by right.
Qed.

Lemma run_handler_wait g q params c :
  run_handler (WaitHandler g q) params c =
    (Ok tt,
     if accepts q params then
       match futures c !! g with
       | Some s => if done s then c
                   else with_futures (<[g := Result params]> (futures c)) c
       | None => with_futures (<[g := Result params]> (futures c)) c
       end
     else c).
Proof.
  unfold run_handler. destruct (accepts q params); [|done].
  unfold set_result, set_future, future_done. unfold_m.
  destruct (futures c !! g) as [s|] eqn:Hg; cbn.
  - destruct (done s) eqn:Hs; cbn; [done|]. by rewrite Hg, Hs.
  - by rewrite Hg.
Qed.

Section wait.
Context (f : nat) (event : string) (predicate : option (json → bool)).
Context (handlers : gmap string (list handler)) (hs0 : list handler).
Hypothesis handlers_event :
  handlers !! event = Some (hs0 ++ [WaitHandler f predicate]).
Hypothesis hs0_other : ∀ p, WaitHandler f p ∉ hs0.
Hypothesis handlers_other :
  ∀ name hs p, name ≠ event → handlers !! name = Some hs → WaitHandler f p ∉ hs.

#[local] Abbreviation invariant := (wait_invariant f event predicate handlers).

Lemma dispatch_pending name params :
  pending_params f (map (λ h, (h, params)) (default [] (handlers !! name)))
  = if String.eqb name event then [params] else [].
Proof.
  destruct (String.eqb name event) eqn:Hn.
  - apply String.eqb_eq in Hn. subst name. rewrite handlers_event. cbn.
    rewrite map_app, pending_params_app, pending_params_none by done.
    cbn. by rewrite Nat.eqb_refl.
  - apply String.eqb_neq in Hn. destruct (handlers !! name) as [hs|] eqn:Hh; [|done].
    cbn. apply pending_params_none. intros p. by eapply handlers_other.
Qed.

Lemma dispatch_predicate name params :
  Forall (λ t : handler * json, ∀ p, t.1 = WaitHandler f p → p = predicate)
         (map (λ h, (h, params)) (default [] (handlers !! name))).
Proof.
  apply Forall_forall. intros [h q] Hin p Hp. cbn in Hp. subst h.
  apply list_elem_of_fmap in Hin as (h & Heq & Hin). inversion Heq; subst h q.
  destruct (decide (name = event)) as [->|Hne].
  - rewrite handlers_event in Hin. cbn in Hin.
    apply elem_of_app in Hin as [Hin|Hin].
    + by apply hs0_other in Hin.
    + apply list_elem_of_singleton in Hin. by inversion Hin.
  - destruct (handlers !! name) as [hs|] eqn:Hh; cbn in Hin.
    + by eapply handlers_other in Hin.
    + by apply elem_of_nil in Hin.
Qed.

Lemma invariant_arrive c seen name params :
  invariant c seen →
  ∃ c',
    listen_loop_receive (event_frame name params) c = (Ok tt, c') ∧
    invariant c' (seen ++ [(name, default (JObj []) params)]).
Proof.
  intros (Hl & Hh & Ht & Hf & Hs).
  eexists. split.
  { unfold listen_loop_receive. rewrite Hl, handle_message_event. reflexivity. }
  split; [exact Hl|]. split; [exact Hh|]. cbn [tasks with_tasks futures].
  rewrite Hh. split; [|split; [exact Hf|]].
  - apply Forall_app. split; [exact Ht|apply dispatch_predicate].
  - rewrite pending_params_app, dispatch_pending, first_matching_event_snoc, <- Hs.
    destruct Hf as [Hp | [v Hv]].
    + rewrite Hp. cbn [settle]. rewrite find_app_first.
      destruct (List.find _ (pending_params f (tasks c))); [done|].
      destruct (String.eqb name event); cbn; [|done].
      by destruct (accepts predicate _).
    + rewrite Hv. done.
Qed.

Lemma invariant_turn c seen :
  invariant c seen →
  ∃ c',
    run_task c = (Ok tt, c') ∧
    invariant c' seen ∧
    length (tasks c') = pred (length (tasks c)).
Proof.
  intros (Hl & Hh & Ht & Hf & Hs). unfold run_task.
  destruct (tasks c) as [|[h params] rest] eqn:Htasks.
  { exists c. split; [done|]. split; [|by rewrite Htasks].
    unfold wait_invariant. by rewrite Htasks. }
  apply Forall_cons in Ht as [Hhead Ht].
  eexists. split; [reflexivity|].
  destruct h as [n|g q].
  - cbn. split; [|done]. unfold wait_invariant. cbn. done.
  - rewrite run_handler_wait. cbn [snd].
    destruct (decide (g = f)) as [->|Hg].
    + assert (q = predicate) as -> by (by apply Hhead).
      cbn [pending_params] in Hs. rewrite Nat.eqb_refl in Hs.
      destruct (accepts predicate params) eqn:Ha.
      * cbn [futures with_tasks]. destruct Hf as [Hp | [v Hv]].
        -- rewrite Hp. cbn [done]. split; [|done].
           unfold wait_invariant. cbn. rewrite lookup_insert_eq.
           split; [done|]. split; [done|]. split; [done|]. split; [eauto|].
           rewrite Hp in Hs. cbn in Hs. rewrite Ha in Hs. done.
        -- rewrite Hv. cbn [done]. split; [|done].
           unfold wait_invariant. cbn. rewrite Hv.
           split; [done|]. split; [done|]. split; [done|]. split; [eauto|].
           rewrite Hv in Hs. done.
      * split; [|done]. unfold wait_invariant. cbn.
        split; [done|]. split; [done|]. split; [done|]. split; [done|].
        destruct Hf as [Hp | [v Hv]].
        -- rewrite Hp in *. cbn in Hs. rewrite Ha in Hs. done.
        -- rewrite Hv in *. done.
    + assert (pending_params f ((WaitHandler g q, params) :: rest)
              = pending_params f rest) as Hpp.
      { cbn. apply Nat.eqb_neq in Hg. by rewrite Hg. }
      rewrite Hpp in Hs.
      assert (∀ c0, tasks c0 = rest → _listen_task c0 = Some Running →
                    _event_handlers c0 = handlers →
                    futures c0 !! f = futures c !! f →
                    invariant c0 seen) as Hinv.
      { intros c0 H1 H2 H3 H4. unfold wait_invariant. by rewrite H1, H4. }
      destruct (accepts q params); [|split; [by apply Hinv|done]].
      cbn [futures with_tasks].
      destruct (futures c !! g) as [s|] eqn:Hfg.
      * destruct (done s); (split; [apply Hinv; try done|done]).
        cbn. by rewrite lookup_insert_ne.
      * split; [apply Hinv; try done|done].
        cbn. by rewrite lookup_insert_ne.
Qed.

Lemma invariant_schedule hs :
  ∀ c seen,
    invariant c seen →
    ∃ c',
      for_each (map tick_of hs) run_tick c = (Ok tt, c') ∧
      invariant c' (seen ++ events_of hs).
Proof.
  induction hs as [|[name params|] hs IH]; intros c seen Hinv.
  - exists c. split; [done|]. by rewrite app_nil_r.
  - destruct (invariant_arrive c seen name params Hinv) as (c1 & Hrun & Hinv1).
    destruct (IH c1 _ Hinv1) as (c' & Hrun' & Hinv').
    exists c'. split.
    + cbn [map for_each tick_of]. rewrite bind_run. cbn [run_tick]. by rewrite Hrun.
    + cbn [events_of]. by rewrite <- app_assoc in Hinv'.
  - destruct (invariant_turn c seen Hinv) as (c1 & Hrun & Hinv1 & _).
    destruct (IH c1 _ Hinv1) as (c' & Hrun' & Hinv').
    exists c'. split; [|done].
    cbn [map for_each tick_of]. rewrite bind_run. cbn [run_tick]. by rewrite Hrun.
Qed.

Lemma invariant_run_tasks n :
  ∀ c seen,
    invariant c seen →
    ∃ c',
      run_tasks n c = (Ok tt, c') ∧
      invariant c' seen ∧
      length (tasks c') = (length (tasks c) - n)%nat.
Proof.
  induction n as [|n IH]; intros c seen Hinv.
  - exists c. split; [done|]. split; [done|lia].
  - destruct (invariant_turn c seen Hinv) as (c1 & Hrun & Hinv1 & Hlen).
    destruct (IH c1 seen Hinv1) as (c' & Hrun' & Hinv' & Hlen').
    exists c'. split; [|split; [done|lia]].
    cbn [run_tasks]. rewrite bind_run. by rewrite Hrun.
Qed.

Lemma invariant_settled c seen :
  invariant c seen →
  tasks c = [] →
  futures c !! f =
    match first_matching_event event predicate seen with
    | Some v => Some (Result v)
    | None => Some Pending
    end.
Proof.
  intros (_ & _ & _ & Hf & Hs) Ht. rewrite Ht in Hs. cbn in Hs. rewrite <- Hs.
  destruct Hf as [-> | [v ->]]; done.
Qed.
End wait.

Lemma filter_other_handlers f predicate hs :
  (∀ p, WaitHandler f p ∉ hs) →
  List.filter (λ x, negb (handler_eqb x (WaitHandler f predicate))) hs = hs.
Proof.
  induction hs as [|[n|g q] hs IH]; intros Hnot; cbn; [done| |].
  - f_equal. apply IH. intros p Hin. apply (Hnot p). by right.
  - destruct (Nat.eqb g f) eqn:Hg; cbn.
    + apply Nat.eqb_eq in Hg. subst g. exfalso. apply (Hnot q). left.
    + f_equal. apply IH. intros p Hin. apply (Hnot p). by right.
Qed.

(** C6.  A caller of [wait_for_event] on a client whose listen loop runs,
    suspended while events arrive and handler tasks run in any
    interleaving: it gets the parameters of the first event of that name
    that satisfies the predicate (the first event of that name when there
    is no predicate), whatever came before it, and [TimeoutError] if there
    is none; in both cases its handler is gone from [_event_handlers] and
    the other handlers are as they were.  The hypothesis on the future the
    call creates holds of every client (see [reachable_unused_future]
    below). *)
Theorem wait_for_event_first_match :
  ∀ c event predicate happenings,
    _listen_task c = Some Running →
    unused_future (next_future c) c →
    ∃ c',
      wait_for_event event predicate (map tick_of happenings) c =
        (match first_matching_event event predicate (events_of happenings) with
         | Some params => Ok params
         | None => Raise (TimeoutError EmptyString)
         end, c') ∧
      _event_handlers c'
        = <[event := default [] (_event_handlers c !! event)]> (_event_handlers c) ∧
      (∀ hs p, _event_handlers c' !! event = Some hs →
               WaitHandler (next_future c) p ∉ hs).
Proof.
  intros c event predicate happenings Hloop [Hhandlers Htasks].
  set (f := next_future c) in *.
  set (hs0 := default [] (_event_handlers c !! event)).
  set (H1 := <[event := hs0 ++ [WaitHandler f predicate]]> (_event_handlers c)).
  set (c1 := with_event_handlers H1
               (with_next_future (S f)
                  (with_futures (<[f := Pending]> (futures c)) c))).
  assert (wait_for_event_begin event predicate c = (Ok f, c1)) as Hbegin by reflexivity.
  assert (H1 !! event = Some (hs0 ++ [WaitHandler f predicate])) as Hev
    by apply lookup_insert_eq.
  assert (∀ p, WaitHandler f p ∉ hs0) as Hhs0.
  { intros p. unfold hs0. destruct (_event_handlers c !! event) as [hs|] eqn:Hh; cbn.
    - by eapply Hhandlers.
    - apply not_elem_of_nil. }
  assert (∀ name hs p, name ≠ event → H1 !! name = Some hs → WaitHandler f p ∉ hs)
    as Hother.
  { intros name hs p Hne Hh. unfold H1 in Hh. rewrite lookup_insert_ne in Hh by done.
    by eapply Hhandlers. }
  assert (wait_invariant f event predicate H1 c1 []) as Hinv.
  { split; [exact Hloop|]. split; [reflexivity|]. cbn [tasks futures c1 with_event_handlers
      with_next_future with_futures]. split; [|split].
    - apply Forall_forall. intros [h q] Hin p Hp. cbn in Hp. subst h.
      by apply Htasks in Hin.
    - left. apply lookup_insert_eq.
    - rewrite lookup_insert_eq, pending_params_unused by done. reflexivity. }
  destruct (invariant_schedule f event predicate H1 hs0 Hev Hhs0 Hother
              happenings c1 [] Hinv) as (c2 & Hrun2 & Hinv2).
  destruct (invariant_run_tasks f event predicate H1 (length (tasks c2)) c2 _ Hinv2)
    as (c3 & Hrun3 & Hinv3 & Hlen3).
  assert (tasks c3 = []) as Hdone by (apply length_zero_iff_nil; lia).
  pose proof (invariant_settled f event predicate H1 c3 _ Hinv3 Hdone) as Hfut.
  cbn [app] in Hfut.
  destruct Hinv3 as (_ & Hh3 & _).
  assert (List.filter (λ x, negb (handler_eqb x (WaitHandler f predicate)))
            (hs0 ++ [WaitHandler f predicate]) = hs0) as Hfilter.
  { rewrite List.filter_app, filter_other_handlers by done.
    cbn. rewrite Nat.eqb_refl. cbn. apply app_nil_r. }
  assert (∀ c4, _event_handlers c4 = H1 →
            (off event (Some (WaitHandler f predicate)) c4).1 = Ok tt ∧
            _event_handlers (off event (Some (WaitHandler f predicate)) c4).2
            = <[event := hs0]> (_event_handlers c)) as Hoff.
  { intros c4 Hc4. unfold off, modify. cbn [fst snd]. rewrite Hc4, Hev. cbn.
    split; [done|]. rewrite Hfilter. unfold H1. apply insert_insert_eq. }
  assert (∃ c',
    wait_for_event event predicate (map tick_of happenings) c =
      (match first_matching_event event predicate (events_of happenings) with
       | Some params => Ok params
       | None => Raise (TimeoutError EmptyString)
       end, c') ∧
    _event_handlers c' = <[event := hs0]> (_event_handlers c)) as (c' & Hres & Hh').
  { unfold wait_for_event. rewrite bind_run, Hbegin. rewrite bind_run, Hrun2.
    rewrite bind_run. unfold run_ready_tasks. rewrite Hrun3.
    unfold wait_for_event_resume, finally, wait_for. rewrite bind_run. unfold gets at 1.
    rewrite Hfut.
    destruct (first_matching_event event predicate (events_of happenings)) as [v|].
    - unfold ret. destruct (Hoff c3 Hh3) as [Hok Hh4].
      destruct (off event (Some (WaitHandler f predicate)) c3) as [r c4].
      cbn in Hok, Hh4. subst r. by exists c4.
    - rewrite bind_run. unfold cancel, future_done. rewrite bind_run. unfold gets at 1.
      rewrite Hfut. cbn [done]. unfold modify at 1. cbn [raise].
      match goal with
      | |- context [off _ _ ?c4] =>
          destruct (Hoff c4) as [Hok Hh4]; [exact Hh3|];
          destruct (off event (Some (WaitHandler f predicate)) c4) as [r c5]
      end.
      cbn in Hok, Hh4. subst r. by exists c5. }
  exists c'. split; [exact Hres|]. split; [exact Hh'|].
  intros hs p Hhs. rewrite Hh', lookup_insert_eq in Hhs.
  inversion Hhs; subst hs. apply Hhs0.
Qed.

(** ** Launching a browser *)

(** An attempt that does not attach leaves the manager as it is; one that
    does changes [browser] only. *)
Lemma try_connect_process p m :
  process (_try_connect p m).2 = process m ∧
  processes (_try_connect p m).2 = processes m ∧
  ((_try_connect p m).1 ≠ Ok true → (_try_connect p m).2 = m).
Proof.
  unfold _try_connect. repeat case_match; cbn; done.
Qed.

(** An attempt raises only what [_get_page_target] raises. *)
Lemma try_connect_raises p m e :
  (_try_connect p m).1 = Raise e → e = AttributeError ∨ e = TypeError.
Proof.
  unfold _try_connect, _get_page_target.
  assert (∀ items, first_page items = Raise e → e = AttributeError) as Hfirst.
  { induction items as [|x items IH]; cbn; [done|].
    destruct x; try (intros Heq; by inversion Heq).
    case_match; [done|]. exact IH. }
  destruct (_get_targets p) as [| | | | |str|items|members]; cbn;
    try (intros Heq; inversion Heq; by right).
  - destruct (String.eqb str EmptyString); cbn; [done|].
    intros Heq; inversion Heq; by left.
  - destruct (first_page items) as [[t|]|e'] eqn:Hf; cbn.
    + repeat case_match; cbn; done.
    + done.
    + intros Heq. inversion Heq; subst. left. by apply Hfirst in Hf.
  - case_bool_decide; cbn; [done|]. intros Heq; inversion Heq; by left.
Qed.

Lemma poll_process timeout start ticks :
  ∀ m r m',
    poll timeout start ticks m = Some (r, m') →
    process m' = process m ∧ processes m' = processes m.
Proof.
  induction ticks as [|[now p] ticks IH]; intros m r m' Hpoll; [done|].
  cbn in Hpoll. destruct (negb (Qle_bool timeout (now - start))).
  - destruct (try_connect_process p m) as (H1 & H2 & _).
    destruct (_try_connect p m) as [[[|]|e] m1]; cbn in *.
    + inversion Hpoll; subst. done.
    + destruct (IH m1 r m' Hpoll) as [H3 H4]. split; congruence.
    + inversion Hpoll; subst. done.
  - inversion Hpoll; subst. done.
Qed.

Lemma poll_raises timeout start ticks :
  ∀ m e m',
    poll timeout start ticks m = Some (Raise e, m') →
    e = AttributeError ∨ e = TypeError.
Proof.
  induction ticks as [|[now p] ticks IH]; intros m e m' Hpoll; [done|].
  cbn in Hpoll. destruct (negb (Qle_bool timeout (now - start))); [|done].
  pose proof (try_connect_raises p m) as Hr.
  destruct (_try_connect p m) as [[[|]|e'] m1]; cbn in *.
  - done.
  - by eapply IH.
  - inversion Hpoll; subst. by apply Hr.
Qed.

Lemma poll_gives_up timeout start ticks :
  ∀ m, gives_up timeout start ticks → poll timeout start ticks m = Some (Ok false, m).
Proof.
  induction ticks as [|[now p] ticks IH]; intros m Hup; [done|].
  cbn in *. destruct (negb (Qle_bool timeout (now - start))); [|done].
  destruct Hup as [Hfail Hup]. specialize (Hfail m).
  destruct (try_connect_process p m) as (_ & _ & Hsame).
  destruct (_try_connect p m) as [r m1]; cbn in *. subst r.
  rewrite Hsame by done. by apply IH.
Qed.

Lemma running_app events1 events2 :
  running (events1 ++ events2)
  = fold_left (λ pids ev,
                 match ev with
                 | Spawned pid _ => pids ++ [pid]
                 | Terminated pid => List.filter (λ x, negb (Nat.eqb x pid)) pids
                 end)
              events2 (running events1).
Proof. unfold running. apply fold_left_app. Qed.

(** C5.  When the polling loop of [launch] reaches the timeout, the error
    is a [BrowserError] (the only error class of [browser.py], the launch
    error of the specification) and [terminate()] has been called on the
    process the call spawned; a call that finds no browser to attach to,
    first and at every attempt until the clock reaches the timeout, does
    end so.  But that is not every failure path.  [_get_targets] returns
    the JSON of the discovery answer as it is, and an answer that is not a
    list of objects makes [_get_page_target] raise [AttributeError] or
    [TypeError] outside every [try]: when that happens at an attempt of
    the polling loop, [launch] raises that exception with the process it
    spawned still running, [terminate()] not called. *)
Theorem launch_error_can_leave_spawned_process_running :
  (∀ headless use_profile timeout env m e m',
     launch headless use_profile timeout env m = Some (Raise e, m') →
     ((∃ msg, e = BrowserError msg) ∧
      ((processes m' = processes m ∧ process m' = process m) ∨
       ∃ pid args,
         popen env = Ok pid ∧
         processes m' = processes m ++ [Spawned pid args; Terminated pid] ∧
         process m' = None)) ∨
     ((e = AttributeError ∨ e = TypeError) ∧
      ((processes m' = processes m ∧ process m' = process m) ∨
       ∃ pid args,
         popen env = Ok pid ∧
         processes m' = processes m ++ [Spawned pid args] ∧
         process m' = Some pid))) ∧
  (∀ headless use_profile timeout env m,
     attached m = false →
     (∀ m0, (_try_connect (first_probe env) m0).1 = Ok false) →
     gives_up timeout (start_time env) (polls env) →
     ∃ msg m',
       launch headless use_profile timeout env m
         = Some (Raise (BrowserError msg), m')) ∧
  (∀ headless use_profile timeout env m chrome_path pid now p rest e,
     attached m = false →
     (∀ m0, (_try_connect (first_probe env) m0).1 = Ok false) →
     find_chrome_executable env = Some chrome_path →
     chrome_path ≠ EmptyString →
     popen env = Ok pid →
     polls env = (now, p) :: rest →
     Qle_bool timeout (now - start_time env) = false →
     (∀ m0, (_try_connect p m0).1 = Raise e) →
     ∃ m' args,
       launch headless use_profile timeout env m = Some (Raise e, m') ∧
       process m' = Some pid ∧
       processes m' = processes m ++ [Spawned pid args] ∧
       (running (processes m) = [] → running (processes m') = [pid])) ∧
  (∀ d m,
     (∀ x items, (∀ t, x ≠ JObj t) →
        _try_connect {| response := Ok (JArr (x :: items)); dial := d |} m
        = (Raise AttributeError, m)) ∧
     (∀ member members,
        _try_connect {| response := Ok (JObj (member :: members)); dial := d |} m
        = (Raise AttributeError, m)) ∧
     _try_connect {| response := Ok JNull; dial := d |} m = (Raise TypeError, m)).
Proof.
  split; [|split; [|split]].
  - intros headless use_profile timeout env m e m' Hlaunch.
    unfold launch in Hlaunch.
    destruct (attached m); [by inversion Hlaunch|].
    destruct (try_connect_process (first_probe env) m) as (Hp & Hps & _).
    pose proof (try_connect_raises (first_probe env) m) as Hr.
    destruct (_try_connect (first_probe env) m) as [[[|]|e1] m1];
      [by inversion Hlaunch| |].
    2: { inversion Hlaunch; subst. right. split; [by apply Hr|]. left. done. }
    cbn in Hp, Hps.
    destruct (find_chrome_executable env) as [chrome_path|].
    2: { inversion Hlaunch; subst. left. split; [eauto|]. left. done. }
    destruct chrome_path as [|a chrome_path].
    { inversion Hlaunch; subst. left. split; [eauto|]. left. done. }
    destruct (popen env) as [pid|e0] eqn:Hpopen.
    2: { inversion Hlaunch; subst. left. split; [eauto|]. left. done. }
    match type of Hlaunch with
    | context [poll ?t ?s ?ticks ?m2] =>
        destruct (poll t s ticks m2) as [[[[|]|e3] m3]|] eqn:Hpoll; try done;
        pose proof Hpoll as Hpoll';
        apply poll_process in Hpoll as [Hp3 Hps3]
    end; cbn in Hp3, Hps3.
    + rewrite Hp3 in Hlaunch. inversion Hlaunch; subst. left. split; [eauto|]. right.
      eexists pid, _. split; [done|]. split; [|done].
      cbn. rewrite Hps3, Hps, <- app_assoc. reflexivity.
    + inversion Hlaunch; subst. right.
      split; [by eapply poll_raises|]. right.
      eexists pid, _. split; [done|]. split; [|done]. by rewrite Hps3, Hps.
  - intros headless use_profile timeout env m Hm Hfirst Hup.
    unfold launch. rewrite Hm.
    specialize (Hfirst m).
    destruct (_try_connect (first_probe env) m) as [r m1]. cbn in Hfirst. subst r.
    destruct (find_chrome_executable env) as [[|a chrome_path]|]; [eauto| |eauto].
    destruct (popen env) as [pid|e0]; [|eauto].
    rewrite (poll_gives_up _ _ _ _ Hup). eauto.
  - intros headless use_profile timeout env m chrome_path pid now p rest e
      Hm Hfirst Hchrome Hne Hpopen Hpolls Hnow Hraise.
    unfold launch. rewrite Hm.
    destruct (try_connect_process (first_probe env) m) as (_ & _ & Hsame).
    specialize (Hfirst m).
    destruct (_try_connect (first_probe env) m) as [r m1]. cbn in Hfirst, Hsame.
    subst r. rewrite Hsame by done. rewrite Hchrome.
    destruct chrome_path as [|a chrome_path]; [done|]. rewrite Hpopen, Hpolls.
    cbn [poll]. rewrite Hnow. cbn [negb].
    match goal with
    | |- context [_try_connect p ?m2] =>
        destruct (try_connect_process p m2) as (_ & _ & Hsame2);
        specialize (Hraise m2);
        destruct (_try_connect p m2) as [r2 m3]
    end.
    cbn in Hraise, Hsame2. subst r2. rewrite Hsame2 by done.
    eexists _, _. split; [reflexivity|]. split; [reflexivity|].
    split; [reflexivity|]. cbn [processes]. intros Hrun.
    by rewrite running_app, Hrun.
  - intros d m. split; [|split].
    + intros x items Hx. unfold _try_connect, _get_page_target. cbn.
      destruct x; try reflexivity. by destruct (Hx members).
    + intros member members. reflexivity.
    + reflexivity.
Qed.

Lemma launch_error_can_leave_spawned_process_running_witness :
  ∃ m' args,
    launch false true 30 wrong_shape_env (new_manager 9222)
    = Some (Raise AttributeError, m') ∧
    process m' = Some 4242%nat ∧
    processes m' = [Spawned 4242 args] ∧
    running (processes m') = [4242%nat].
Proof.
  destruct (proj1 (proj2 (proj2 launch_error_can_leave_spawned_process_running))
              false true 30%Q wrong_shape_env (new_manager 9222) "/usr/bin/chromium"
              4242%nat 100%Q
              {| response := Ok (JObj [("error", JStr "not found")]); dial := None |}
              [] AttributeError)
    as (m' & args & Hrun & Hp & Hps & Hrunning);
    try reflexivity.
  - discriminate.
  - exists m', args. split; [exact Hrun|]. split; [exact Hp|]. split; [exact Hps|].
    by apply Hrunning.
Defined.

Lemma wait_for_event_first_match_witness :
  _listen_task page_client = Some Running ∧
  unused_future (next_future page_client) page_client ∧
  ∃ c',
    wait_for_event "Page.loadEventFired" None
      (map tick_of [Event "Page.frameNavigated" None; TaskRuns;
                    Event "Page.loadEventFired" (Some (JObj [("timestamp", JInt 7)]))])
      page_client
    = (Ok (JObj [("timestamp", JInt 7)]), c') ∧
    _event_handlers c'
      = <["Page.loadEventFired" :=
            default [] (_event_handlers page_client !! "Page.loadEventFired")]>
          (_event_handlers page_client) ∧
    (∀ hs p, _event_handlers c' !! "Page.loadEventFired" = Some hs →
             WaitHandler (next_future page_client) p ∉ hs).
Proof.
  assert (unused_future (next_future page_client) page_client) as H.
  { split.
    - intros name hs p Hh. change (_event_handlers page_client) with
        (∅ : gmap string (list handler)) in Hh. by rewrite lookup_empty in Hh.
    - intros p params. apply not_elem_of_nil. }
  split; [reflexivity|]. split; [exact H|].
  exact (wait_for_event_first_match page_client "Page.loadEventFired" None
           [Event "Page.frameNavigated" None; TaskRuns;
            Event "Page.loadEventFired" (Some (JObj [("timestamp", JInt 7)]))]
           eq_refl H).
Defined.

(** ** The hypothesis of the wait theorem holds of every client

    Whatever calls were made on a client since [__init__], no handler and
    no task mentions a future that is yet to be created, the one the next
    [wait_for_event] creates in particular. *)

#[local] Instance keeps_fresh_preorder : PreOrder keeps_fresh.
Proof.
  split.
  - intros c H. exact H.
  - intros c1 c2 c3 H12 H23 H. apply H23, H12, H.
Qed.

Lemma stable_handle_message_dispatch R `{!PreOrder R} m :
  (∀ c v, R c (with_futures v c)) →
  (∀ c v, R c (with_callbacks v c)) →
  (∀ c name hs params,
     _event_handlers c !! name = Some hs →
     R c (with_tasks (tasks c ++ map (λ h, (h, params)) hs) c)) →
  stable R (handle_message m).
Proof.
  intros Hf Hcb Hdispatch.
  unfold handle_message. destruct (json_loads m) as [data|]; [|by apply stable_ret].
  apply stable_bind; [done|by apply stable_lift|]. intros has_id.
  apply stable_bind; [done| |].
  - destruct has_id; [|by apply stable_ret].
    apply stable_bind; [done|by apply stable_lift|]. intros msg_id.
    apply stable_bind; [done|by apply stable_lift|]. intros key.
    apply stable_bind; [done|by apply stable_gets|]. intros callbacks.
    destruct key as [n| |]; try by apply stable_ret.
    destruct (callbacks !! n) as [future|]; [|by apply stable_ret].
    apply stable_bind; [done|apply stable_modify; intros c; apply Hcb|].
    intros _. apply stable_bind; [done|by apply stable_lift|]. intros [|].
    + repeat (apply stable_bind; [done|by apply stable_lift|]; intros ?).
      by apply stable_set_future.
    + apply stable_bind; [done|by apply stable_lift|]. intros ?.
      by apply stable_set_future.
  - intros _. apply stable_bind; [done|by apply stable_lift|].
    intros [|]; [|by apply stable_ret].
    repeat (apply stable_bind; [done|by apply stable_lift|]; intros ?).
    intros c. rewrite bind_run. unfold gets. cbn [fst snd].
    match goal with |- R c (match ?k with _ => _ end c).2 => destruct k as [|name|] end;
      try reflexivity.
    destruct (_event_handlers c !! name) as [hs|] eqn:Hh; [|reflexivity].
    rewrite for_each_create_task. by apply (Hdispatch c name).
Qed.

Lemma unused_future_tasks f c ts :
  unused_future f c →
  (∀ t, t ∈ ts → t ∈ tasks c ∨ ∃ name hs, _event_handlers c !! name = Some hs ∧ t.1 ∈ hs) →
  unused_future f (with_tasks ts c).
Proof.
  intros [Hh Ht] Hts. split; [exact Hh|].
  intros p params Hin. cbn in Hin. destruct (Hts _ Hin) as [Hold | (name & hs & Hn & Hhs)].
  - exact (Ht _ _ Hold).
  - exact (Hh _ _ _ Hn Hhs).
Qed.

Lemma unused_future_handlers f c H :
  unused_future f c →
  (∀ name hs h, H !! name = Some hs → h ∈ hs →
     (∃ n, h = Callback n) ∨ (∃ g p, h = WaitHandler g p ∧ g ≠ f) ∨
     ∃ name' hs', _event_handlers c !! name' = Some hs' ∧ h ∈ hs') →
  unused_future f (with_event_handlers H c).
Proof.
  intros [Hh Ht] HH. split; [|exact Ht].
  intros name hs p Hn Hin. cbn in Hn.
  destruct (HH name hs _ Hn Hin) as [[n Hc] | [(g & q & Hw & Hg) | (name' & hs' & Hn' & Hin')]].
  - done.
  - inversion Hw. congruence.
  - exact (Hh _ _ _ Hn' Hin').
Qed.

Lemma keeps_fresh_same c c' :
  _event_handlers c' = _event_handlers c →
  tasks c' = tasks c →
  (next_future c ≤ next_future c')%nat →
  keeps_fresh c c'.
Proof.
  intros Hh Ht Hn Hfresh f Hf. destruct (Hfresh f) as [H1 H2]; [lia|].
  split; [by rewrite Hh|by rewrite Ht].
Qed.

Lemma keeps_fresh_on event name c : keeps_fresh c (on event (Callback name) c).2.
Proof.
  intros Hfresh f Hf. unfold on, modify. cbn [snd].
  apply unused_future_handlers; [by apply Hfresh|].
  intros name' hs h Hn Hin. rewrite lookup_insert in Hn. case_decide as Hev.
  - inversion Hn; subst hs. apply elem_of_app in Hin as [Hin|Hin].
    + destruct (_event_handlers c !! event) as [hs'|] eqn:Hh; cbn in Hin.
      * right. right. eauto.
      * by apply elem_of_nil in Hin.
    + apply list_elem_of_singleton in Hin. left. eauto.
  - right. right. eauto.
Qed.

Lemma keeps_fresh_off event h c : keeps_fresh c (off event h c).2.
Proof.
  intros Hfresh f Hf.
  assert (next_future (off event h c).2 = next_future c) as Hnext
    by (unfold off, modify; cbn; repeat case_match; done).
  rewrite Hnext in Hf. unfold off, modify. cbn [snd].
  destruct (_event_handlers c !! event) as [hs0|] eqn:Hev; [|by apply Hfresh].
  destruct h as [h|]; cbn [snd].
  - apply unused_future_handlers; [by apply Hfresh|].
    intros name' hs x Hn Hin. right. right.
    rewrite lookup_insert in Hn. case_decide as Hname.
    + inversion Hn; subst hs. apply list_elem_of_In, List.filter_In in Hin as [Hin _].
      apply list_elem_of_In in Hin. eauto.
    + eauto.
  - apply unused_future_handlers; [by apply Hfresh|].
    intros name' hs x Hn Hin. right. right.
    apply lookup_delete_Some in Hn as [_ Hn]. eauto.
Qed.

Lemma keeps_fresh_wait_begin event predicate c :
  keeps_fresh c (wait_for_event_begin event predicate c).2.
Proof.
  intros Hfresh f Hf. cbn in Hf.
  change ((wait_for_event_begin event predicate c).2) with
    (with_event_handlers
       (<[event := default [] (_event_handlers c !! event)
                     ++ [WaitHandler (next_future c) predicate]]> (_event_handlers c))
       (with_next_future (S (next_future c))
          (with_futures (<[next_future c := Pending]> (futures c)) c))).
  destruct (Hfresh f) as [Hh Ht]; [lia|].
  split; [|exact Ht].
  intros name hs p Hn Hin. cbn in Hn. rewrite lookup_insert in Hn. case_decide as Hev.
  - inversion Hn; subst hs. apply elem_of_app in Hin as [Hin|Hin].
    + destruct (_event_handlers c !! event) as [hs'|] eqn:Hh'; cbn in Hin.
      * exact (Hh _ _ _ Hh' Hin).
      * by apply elem_of_nil in Hin.
    + apply list_elem_of_singleton in Hin. inversion Hin. lia.
  - exact (Hh _ _ _ Hn Hin).
Qed.

Lemma keeps_fresh_run_task c : keeps_fresh c (run_task c).2.
Proof.
  unfold run_task. destruct (tasks c) as [|[h params] rest] eqn:Ht; [done|].
  cbn [snd]. transitivity (with_tasks rest c).
  - intros Hfresh f Hf. apply unused_future_tasks; [by apply Hfresh|].
    intros t Hin. left. rewrite Ht. by right.
  - apply (stable_run_handler keeps_fresh); intros c0 v; by apply keeps_fresh_same.
Qed.

Lemma keeps_fresh_dispatch c name hs params :
  _event_handlers c !! name = Some hs →
  keeps_fresh c (with_tasks (tasks c ++ map (λ h, (h, params)) hs) c).
Proof.
  intros Hn Hfresh f Hf. apply unused_future_tasks; [by apply Hfresh|].
  intros t Hin. apply elem_of_app in Hin as [Hin|Hin]; [by left|]. right.
  apply list_elem_of_fmap in Hin as (h & -> & Hin). eauto.
Qed.

Lemma run_call_keeps_fresh k c : keeps_fresh c (run_call k c).
Proof.
  assert (∀ c0 v, keeps_fresh c0 (with_futures v c0)) as Hf
    by (intros; by apply keeps_fresh_same).
  assert (∀ c0 v, keeps_fresh c0 (with_callbacks v c0)) as Hcb
    by (intros; by apply keeps_fresh_same).
  assert (stable keeps_fresh close) as Hclose
    by (apply stable_close; try apply _; intros; by apply keeps_fresh_same).
  destruct k as [ws_url dial| |method params|method msg_id f expired|event name
                |event h|event predicate|event f predicate expired|[m|]|clean
                |method params e];
    cbn [run_call run_tick].
  - apply (stable_connect keeps_fresh); try done; intros; by apply keeps_fresh_same.
  - apply Hclose.
  - destruct (connected c) eqn:Hc.
    + rewrite send_begin_connected by done. apply keeps_fresh_same; cbn; try done; lia.
    + by rewrite send_begin_not_connected.
  - by apply (stable_send_resume keeps_fresh).
  - apply keeps_fresh_on.
  - apply keeps_fresh_off.
  - apply keeps_fresh_wait_begin.
  - unfold wait_for_event_resume, finally.
    pose proof (stable_wait_for keeps_fresh Hf f expired c) as Hw.
    destruct (wait_for f expired c) as [r c1]. cbn in Hw.
    pose proof (keeps_fresh_off event (Some (WaitHandler f predicate)) c1) as Ho.
    destruct (off event (Some (WaitHandler f predicate)) c1) as [[u|e] c2];
      cbn in *; by etransitivity.
  - unfold listen_loop_receive. destruct (_listen_task c) as [[|]|]; try done.
    pose proof (stable_handle_message_dispatch keeps_fresh m Hf Hcb
                  keeps_fresh_dispatch c) as Hm.
    destruct (handle_message m c) as [[u|e] c1]; cbn in *; [done|].
    etransitivity; [exact Hm|]. by apply keeps_fresh_same.
  - apply keeps_fresh_run_task.
  - unfold listen_loop_closed.
    destruct (_listen_task c) as [[|]|]; try done.
    destruct (ws c); [|done]. destruct clean; by apply keeps_fresh_same.
  - destruct (connected c) eqn:Hc.
    + rewrite send_unwritten_connected by done.
      apply keeps_fresh_same; cbn; try done; lia.
    + by rewrite send_unwritten_not_connected.
Qed.

Lemma reachable_fresh_futures ks : fresh_futures (run_calls ks init).
Proof.
  assert (∀ c, fresh_futures c → fresh_futures (run_calls ks c)) as H.
  { induction ks as [|k ks IH]; intros c Hc; [done|].
    cbn. apply IH. by apply run_call_keeps_fresh. }
  apply H. intros f _. split.
  - intros name hs p Hn. cbn in Hn. by rewrite lookup_empty in Hn.
  - intros p params. apply not_elem_of_nil.
Qed.

Lemma reachable_unused_future ks :
  unused_future (next_future (run_calls ks init)) (run_calls ks init).
Proof. by apply reachable_fresh_futures. Qed.

(** * Further properties of the client *)

(** ** Replies *)

(** A reply to a pending command, without [method]: the command leaves
    [_callbacks] and its caller gets the [result] of the reply, an empty
    dict when the reply has none, or, when the reply has an [error] object,
    [CDPError] with the code and message of that object, [-1] and
    ["Unknown error"] when it lacks them.  An [error] that is not an object
    makes [_handle_message] raise [AttributeError] after the command has
    left [_callbacks], its future still pending. *)
Theorem reply_resolves_pending_command :
  ∀ c members msg_id future method expired,
    dict_get "id" members = Some (JInt msg_id) →
    dict_get "method" members = None →
    _callbacks c !! msg_id = Some future →
    futures c !! future = Some Pending →
    match reply_outcome members with
    | Some outcome =>
        ∃ c',
          handle_message (Json (JObj members)) c = (Ok tt, c') ∧
          _callbacks c' = delete msg_id (_callbacks c) ∧
          send_resume method msg_id future expired c' = (outcome, c')
    | None =>
        ∃ c',
          handle_message (Json (JObj members)) c = (Raise AttributeError, c') ∧
          _callbacks c' = delete msg_id (_callbacks c) ∧
          futures c' !! future = Some Pending
    end.
Proof.
  intros c members msg_id future method expired Hid Hm Hcb Hf.
  unfold reply_outcome, handle_message. cbn. unfold_m. rewrite Hid, Hm. cbn.
  rewrite Hcb. cbn.
  destruct (dict_get "error" members) as [error|] eqn:Herr; cbn.
  - destruct error; cbn;
      try (eexists; split; [reflexivity|]; split; [reflexivity|]; exact Hf).
    unfold set_exception, set_future, future_done. unfold_m. cbn. rewrite Hf. cbn.
    eexists. split; [reflexivity|]. split; [reflexivity|].
    unfold send_resume, wait_for. unfold_m. cbn. rewrite lookup_insert_eq. reflexivity.
  - unfold set_result, set_future, future_done. unfold_m. cbn. rewrite Hf. cbn.
    eexists. split; [reflexivity|]. split; [reflexivity|].
    unfold send_resume, wait_for. unfold_m. cbn. rewrite lookup_insert_eq. reflexivity.
Qed.

Lemma reply_resolves_pending_command_witness :
  dict_get "id" [("id", JInt 1); ("error", JObj [("code", JInt (-32000))])]
    = Some (JInt 1) ∧
  _callbacks waiting_client !! 1 = Some 0%nat ∧
  ∃ c',
    handle_message
      (Json (JObj [("id", JInt 1); ("error", JObj [("code", JInt (-32000))])]))
      waiting_client = (Ok tt, c') ∧
    _callbacks c' = delete 1 (_callbacks waiting_client) ∧
    send_resume "Page.enable" 1 0%nat false c'
      = (Raise (CDPError (JInt (-32000)) (JStr "Unknown error")), c').
Proof.
  split; [reflexivity|]. split; [reflexivity|].
  exact (reply_resolves_pending_command waiting_client
           [("id", JInt 1); ("error", JObj [("code", JInt (-32000))])]
           1 0%nat "Page.enable" false eq_refl eq_refl eq_refl eq_refl).
Defined.

(** ** Dispatch of events *)

Lemma run_tasks_invoked ts :
  ∀ c,
    tasks c = ts →
    ∃ c',
      run_tasks (length ts) c = (Ok tt, c') ∧
      tasks c' = [] ∧
      invoked c' = invoked c ++ calls_of ts ∧
      _event_handlers c' = _event_handlers c.
Proof.
  induction ts as [|[h params] rest IH]; intros c Ht.
  - exists c. cbn. by rewrite app_nil_r.
  - assert (∃ c1, run_task c = (Ok tt, c1) ∧ tasks c1 = rest ∧
                  invoked c1 = invoked c ++ calls_of [(h, params)] ∧
                  _event_handlers c1 = _event_handlers c) as (c1 & Hrun & Ht1 & Hi1 & Hh1).
    { unfold run_task. rewrite Ht. destruct h as [name|g q].
      - eexists. split; [reflexivity|]. cbn. done.
      - rewrite run_handler_wait. eexists. split; [reflexivity|]. cbn [snd calls_of].
        rewrite app_nil_r.
        destruct (accepts q params); [|done].
        destruct (futures (with_tasks rest c) !! g) as [s|]; [destruct (done s)|]; done. }
    destruct (IH c1 Ht1) as (c' & Hrun' & Ht' & Hi' & Hh').
    exists c'. split; [|split; [done|split]].
    + cbn [length run_tasks]. by rewrite bind_run, Hrun.
    + rewrite Hi', Hi1, <- app_assoc. destruct h; reflexivity.
    + congruence.
Qed.

(** An event reaches every handler registered under its name, once per
    registration and in the order of registration, with the [params] of the
    frame (an empty dict when the frame has none); handlers registered
    under other names are not called.  [calls_of] lists the calls made to
    caller-supplied handlers. *)
Theorem event_reaches_handlers_in_registration_order :
  ∀ c name params,
    _listen_task c = Some Running →
    tasks c = [] →
    ∃ c',
      (listen_loop_receive (event_frame name params) ;;; run_ready_tasks) c
        = (Ok tt, c') ∧
      tasks c' = [] ∧
      invoked c'
        = invoked c
          ++ calls_of (map (λ h, (h, default (JObj []) params))
                           (default [] (_event_handlers c !! name))) ∧
      _event_handlers c' = _event_handlers c.
Proof.
  intros c name params Hloop Ht.
  assert (listen_loop_receive (event_frame name params) c
          = (Ok tt,
             with_tasks (map (λ h, (h, default (JObj []) params))
                             (default [] (_event_handlers c !! name))) c)) as Hrecv.
  { unfold listen_loop_receive. rewrite Hloop, handle_message_event, Ht. reflexivity. }
  set (ts := map _ _) in *.
  destruct (run_tasks_invoked ts (with_tasks ts c) eq_refl) as (c' & Hrun & Ht' & Hi & Hh).
  exists c'. rewrite bind_run, Hrecv. unfold run_ready_tasks. cbn [tasks with_tasks].
  by rewrite Hrun.
Qed.

Lemma event_reaches_handlers_in_registration_order_witness :
  _listen_task page_client = Some Running ∧
  tasks page_client = [] ∧
  ∃ c',
    (listen_loop_receive (event_frame "Page.loadEventFired" None) ;;; run_ready_tasks)
      (on "Page.loadEventFired" (Callback 2)
         (on "Page.loadEventFired" (Callback 5) page_client).2).2
    = (Ok tt, c') ∧
    invoked c' = [(5%nat, JObj []); (2%nat, JObj [])].
Proof.
  split; [reflexivity|]. split; [reflexivity|].
  destruct (event_reaches_handlers_in_registration_order
              (on "Page.loadEventFired" (Callback 2)
                 (on "Page.loadEventFired" (Callback 5) page_client).2).2
              "Page.loadEventFired" None eq_refl eq_refl) as (c' & Hrun & _ & Hi & _).
  exists c'. split; [exact Hrun|]. exact Hi.
Defined.

(** ** Subscriptions *)

Lemma on_times_handlers k event h :
  ∀ c,
    _event_handlers (on_times k event h c) !! event
      = (if k is O then _event_handlers c !! event
         else Some (default [] (_event_handlers c !! event) ++ replicate k h)) ∧
    ∀ name, name ≠ event →
      _event_handlers (on_times k event h c) !! name = _event_handlers c !! name.
Proof.
  induction k as [|k IH]; intros c; [done|].
  cbn [on_times]. destruct (IH (on event h c).2) as [Hev Hother].
  assert (_event_handlers (on event h c).2 !! event
          = Some (default [] (_event_handlers c !! event) ++ [h])) as Hon
    by apply lookup_insert_eq.
  split.
  - rewrite Hev, Hon. destruct k; [done|]. cbn. by rewrite <- app_assoc.
  - intros name Hne. rewrite Hother by done. cbn. by apply lookup_insert_ne.
Qed.

Lemma filter_replicate_handler (h : handler) k hs :
  handler_eqb h h = true →
  List.filter (λ x, negb (handler_eqb x h)) (hs ++ replicate k h)
  = List.filter (λ x, negb (handler_eqb x h)) hs.
Proof.
  intros Hh. rewrite List.filter_app.
  assert (List.filter (λ x, negb (handler_eqb x h)) (replicate k h) = []) as ->.
  { induction k as [|k IH]; [done|]. cbn. by rewrite Hh. }
  apply app_nil_r.
Qed.

Lemma handler_eqb_refl h : handler_eqb h h = true.
Proof. destruct h; cbn; apply Nat.eqb_refl. Qed.

(** [off(event, h)] removes every registration of [h] under [event],
    however many times [on(event, h)] was called, together with the
    registrations of [h] that were there before, and keeps the other
    handlers of the event in their order; the name stays in the table, with
    an empty list if nothing else is registered.  [off(event)] without a
    handler removes the name with all its handlers.  Both leave the other
    names alone. *)
Theorem off_removes_every_registration :
  ∀ c event h k,
    k ≠ 0%nat →
    _event_handlers (off event (Some h) (on_times k event h c)).2
      = <[event := List.filter (λ x, negb (handler_eqb x h))
                     (default [] (_event_handlers c !! event))]>
          (_event_handlers c) ∧
    _event_handlers (off event None (on_times k event h c)).2
      = delete event (_event_handlers c).
Proof.
  intros c event h k Hk.
  destruct (on_times_handlers k event h c) as [Hev Hother].
  destruct k as [|k]; [done|].
  split.
  - unfold off, modify. cbn [snd]. rewrite Hev. cbn [_event_handlers with_event_handlers].
    rewrite filter_replicate_handler by apply handler_eqb_refl.
    apply map_eq. intros name. destruct (decide (name = event)) as [->|Hne].
    + by rewrite !lookup_insert_eq.
    + rewrite !lookup_insert_ne by done. by apply Hother.
  - unfold off, modify. cbn [snd]. rewrite Hev. cbn [_event_handlers with_event_handlers].
    apply map_eq. intros name. destruct (decide (name = event)) as [->|Hne].
    + by rewrite !lookup_delete_eq.
    + rewrite !lookup_delete_ne by done. by apply Hother.
Qed.

Lemma off_removes_every_registration_witness :
  _event_handlers
    (off "Page.loadEventFired" (Some (Callback 9))
       (on_times 3 "Page.loadEventFired" (Callback 9) subscribed_client)).2
  = <["Page.loadEventFired" :=
        List.filter (λ x, negb (handler_eqb x (Callback 9)))
          (default [] (_event_handlers subscribed_client !! "Page.loadEventFired"))]>
      (_event_handlers subscribed_client) ∧
  _event_handlers
    (off "Page.loadEventFired" None
       (on_times 3 "Page.loadEventFired" (Callback 9) subscribed_client)).2
  = delete "Page.loadEventFired" (_event_handlers subscribed_client).
Proof.
  apply (off_removes_every_registration subscribed_client "Page.loadEventFired"
           (Callback 9) 3); discriminate.
Defined.

(** ** Connecting again *)

(** [connect] on a client that is connected closes the connection it has
    before it dials: the commands still pending are cancelled and
    [_callbacks] is emptied, also when the dial then fails, in which case
    the client is left closed with the exception of the dial raised.  The
    subscriptions and the id counter pass to the new connection. *)
Theorem connect_closes_live_connection_first :
  ∀ c ws_url dial,
    connected c = true →
    ∃ c',
      connect ws_url dial c = (dialled dial, c') ∧
      _callbacks c' = ∅ ∧
      (∀ k g, _callbacks c !! k = Some g → futures c !! g = Some Pending →
         futures c' !! g = Some Cancelled) ∧
      _event_handlers c' = _event_handlers c ∧
      _id_counter c' = _id_counter c ∧
      _ws_url c' = Some ws_url ∧
      match dial with
      | None =>
          ws c' = Some {| endpoint := ws_url; closed := false |} ∧
          connected c' = true ∧ _listen_task c' = Some Running
      | Some _ => ws c' = None ∧ connected c' = false ∧ _listen_task c' = None
      end.
Proof.
  intros c ws_url dial Hc.
  destruct (close_spec c) as (F & Hclose & Hpending & _ & _).
  unfold connect. rewrite bind_run. unfold gets at 1. rewrite Hc.
  rewrite bind_run, Hclose. rewrite bind_run. unfold modify at 1.
  destruct dial as [e|].
  - eexists. split; [reflexivity|]. cbn. repeat split; done.
  - eexists. split; [reflexivity|]. cbn. repeat split; done.
Qed.

Lemma connect_closes_live_connection_first_witness :
  ∃ c',
    connect "ws://localhost:9222/devtools/page/T2" (Some (OSError "refused"))
      waiting_client
    = (Raise (OSError "refused"), c') ∧
    _callbacks c' = ∅ ∧
    futures c' !! 0%nat = Some Cancelled ∧
    connected c' = false.
Proof.
  destruct (connect_closes_live_connection_first waiting_client
              "ws://localhost:9222/devtools/page/T2" (Some (OSError "refused")) eq_refl)
    as (c' & Hrun & Hcb & Hp & _ & _ & _ & _ & Hcon & _).
  exists c'. split; [exact Hrun|]. split; [exact Hcb|]. split; [|exact Hcon].
  apply (Hp 1 0%nat); reflexivity.
Defined.

(** [connect] on a client that is not connected (never connected, or left
    so by the loss of its connection) closes nothing: the commands still
    pending stay in [_callbacks] with their futures pending, and a reply
    that carries one of their ids on the new connection resolves the
    command sent on the old one. *)
Theorem connect_after_loss_keeps_pending_commands :
  ∀ c ws_url msg_id future payload method expired,
    connected c = false →
    _callbacks c !! msg_id = Some future →
    futures c !! future = Some Pending →
    ∃ c1 c2,
      connect ws_url None c = (Ok tt, c1) ∧
      _callbacks c1 = _callbacks c ∧
      futures c1 = futures c ∧
      connected c1 = true ∧
      listen_loop_receive (reply_frame msg_id payload) c1 = (Ok tt, c2) ∧
      send_resume method msg_id future expired c2 = (Ok payload, c2).
Proof.
  intros c ws_url msg_id future payload method expired Hc Hcb Hf.
  eexists. eexists. split; [by apply connect_not_connected|].
  split; [reflexivity|]. split; [reflexivity|]. split; [reflexivity|].
  split.
  - unfold listen_loop_receive. cbn [_listen_task with_listen_task].
    rewrite (handle_message_reply _ msg_id payload future) by done. reflexivity.
  - unfold send_resume, wait_for. rewrite bind_run. unfold gets at 1.
    cbn [futures with_futures with_callbacks]. rewrite lookup_insert_eq. reflexivity.
Qed.

Lemma connect_after_loss_keeps_pending_commands_witness :
  ∃ c1 c2,
    connect "ws://localhost:9222/devtools/page/T1" None
      (listen_loop_closed false waiting_client).2 = (Ok tt, c1) ∧
    _callbacks c1 = _callbacks (listen_loop_closed false waiting_client).2 ∧
    futures c1 = futures (listen_loop_closed false waiting_client).2 ∧
    connected c1 = true ∧
    listen_loop_receive (reply_frame 1 (JObj [])) c1 = (Ok tt, c2) ∧
    send_resume "Page.enable" 1 0%nat false c2 = (Ok (JObj []), c2).
Proof.
  apply (connect_after_loss_keeps_pending_commands
           (listen_loop_closed false waiting_client).2
           "ws://localhost:9222/devtools/page/T1" 1 0%nat (JObj []) "Page.enable" false);
    reflexivity.
Defined.

(** ** Frames written *)

Lemma run_call_sent k c :
  ∃ frames,
    sent (run_call k c) = sent c ++ frames ∧
    map frame_id frames = map Some (option_list (written k c)).
Proof.
  assert (stable same_sent close) as Hclose
    by (apply stable_close; try apply _; intros; reflexivity).
  destruct k as [ws_url dial| |method params|method msg_id f expired|event name
                |event h|event predicate|event f predicate expired|[m|]|clean
                |method params e];
    cbn [written allocated run_call run_tick option_list map];
    try (exists []; rewrite app_nil_r; split; [|reflexivity]).
  - apply (stable_connect same_sent); try done; intros; reflexivity.
  - apply Hclose.
  - destruct (connected c) eqn:Hc.
    + rewrite send_begin_connected by done. cbn [fst snd sent with_sent].
      eexists. split; [reflexivity|]. reflexivity.
    + rewrite send_begin_not_connected by done. cbn [fst snd].
      exists []. by rewrite app_nil_r.
  - apply (stable_send_resume same_sent); intros; reflexivity.
  - apply (stable_on same_sent); intros; reflexivity.
  - apply (stable_off same_sent); intros; reflexivity.
  - apply (stable_wait_for_event_begin same_sent); intros; reflexivity.
  - apply (stable_wait_for_event_resume same_sent); intros; reflexivity.
  - apply (stable_listen_loop_receive same_sent); intros; reflexivity.
  - apply (stable_run_task same_sent); intros; reflexivity.
  - unfold listen_loop_closed.
    destruct (_listen_task c) as [[|]|], (ws c), clean; reflexivity.
  - destruct (connected c) eqn:Hc.
    + by rewrite send_unwritten_connected.
    + by rewrite send_unwritten_not_connected.
Qed.

Lemma written_ids_allocated ks :
  ∀ c, written_ids ks c `sublist_of` allocated_ids ks c.
Proof.
  induction ks as [|k ks IH]; intros c; [done|].
  cbn [written_ids allocated_ids]. specialize (IH (run_call k c)).
  destruct k; cbn [written]; (destruct (allocated _ c); [by constructor|done]).
Qed.

(** Along every history of a client, the frames written to the transport
    are never removed or rewritten, and only a [send] whose write returns
    adds one: the frames written carry, in the order they are written,
    exactly the ids allocated by those calls, which are among the ids
    allocated, in the same order.  A [send] whose write raises allocates an
    id that no frame carries: the counter moves, nothing is written, and
    the entry stays in [_callbacks] unless the exception is
    [asyncio.TimeoutError]; a [send] on a client that is not connected
    allocates nothing. *)
Theorem frames_written_follow_allocated_ids :
  (∀ ks c,
     ∃ frames,
       sent (run_calls ks c) = sent c ++ frames ∧
       map frame_id frames = map Some (written_ids ks c) ∧
       written_ids ks c `sublist_of` allocated_ids ks c) ∧
  (∀ method params e c,
     connected c = true →
     ∃ c',
       send_unwritten method params e c
       = (Raise (match e with
                 | TimeoutError _ => TimeoutError method
                 | _ => e
                 end), c') ∧
       sent c' = sent c ∧
       _id_counter c' = _id_counter c + 1 ∧
       allocated (SendUnwritten method params e) c = Some (_id_counter c + 1) ∧
       _callbacks c' !! (_id_counter c + 1)
       = match e with
         | TimeoutError _ => None
         | _ => Some (next_future c)
         end ∧
       futures c' !! next_future c = Some Pending).
Proof.
  split.
  - induction ks as [|k ks IH]; intros c.
    + exists []. rewrite app_nil_r. repeat split; constructor.
    + destruct (run_call_sent k c) as (fs1 & Hs1 & Hid1).
      destruct (IH (run_call k c)) as (fs2 & Hs2 & Hid2 & _).
      exists (fs1 ++ fs2). split; [|split].
      * change (run_calls (k :: ks) c) with (run_calls ks (run_call k c)).
        by rewrite Hs2, Hs1, app_assoc.
      * rewrite map_app, Hid1, Hid2. cbn [written_ids].
        by destruct (written k c).
      * apply written_ids_allocated.
  - intros method params e c Hc. eexists.
    split; [by apply send_unwritten_connected|].
    cbn [allocated]. rewrite Hc, send_unwritten_connected by done.
    cbn [sent _id_counter _callbacks futures with_callbacks with_next_future
         with_futures with_id_counter snd].
    split; [done|]. split; [done|]. split; [done|]. split.
    + destruct e; rewrite ?lookup_delete_eq, ?lookup_insert_eq; reflexivity.
    + apply lookup_insert_eq.
Qed.

Lemma frames_written_follow_allocated_ids_witness :
  ∃ c',
    send_unwritten "Page.enable" None ConnectionClosed page_client
    = (Raise ConnectionClosed, c') ∧
    sent c' = [] ∧
    _callbacks c' !! 1 = Some 0%nat ∧
    allocated_ids
      [SendBegin "Page.enable" None;
       SendUnwritten "Page.enable" None ConnectionClosed;
       SendBegin "Page.enable" None] page_client = [1; 2; 3] ∧
    written_ids
      [SendBegin "Page.enable" None;
       SendUnwritten "Page.enable" None ConnectionClosed;
       SendBegin "Page.enable" None] page_client = [1; 3].
Proof.
  destruct (proj2 frames_written_follow_allocated_ids "Page.enable" None
              ConnectionClosed page_client eq_refl)
    as (c' & Hrun & Hsent & _ & _ & Hcb & _).
  exists c'. split; [exact Hrun|]. split; [exact Hsent|]. split; [exact Hcb|].
  split; vm_compute; reflexivity.
Defined.

(** ** [close] and a caller of [wait_for_event] *)



(** ** A frame that is a reply and an event *)

(** The two tests of [_handle_message] are independent.  A frame that
    carries an int [id] and a str [method] (and no [error]) is handled as
    the reply [{"id", "result"}] and then as the event [{"method",
    "params"}]: the command of that id is resolved and the handlers of the
    event get their tasks. *)
Theorem frame_with_id_and_method_is_reply_then_event :
  ∀ c members msg_id name,
    dict_get "id" members = Some (JInt msg_id) →
    dict_get "error" members = None →
    dict_get "method" members = Some (JStr name) →
    handle_message (Json (JObj members)) c
    = (handle_message (reply_frame msg_id (default (JObj []) (dict_get "result" members))) ;;;
       handle_message (event_frame name (dict_get "params" members))) c.
Proof.
  intros c members msg_id name Hid Herr Hm.
  unfold handle_message, reply_frame, event_frame. cbn. unfold_m.
  rewrite Hid, Herr, Hm. cbn.
  destruct (_callbacks c !! msg_id) as [future|] eqn:Hcb; cbn.
  - unfold set_result, set_future, future_done. unfold_m. cbn.
    destruct (futures c !! future) as [[]|]; cbn;
      destruct (dict_get "params" members); reflexivity.
  - destruct (dict_get "params" members); reflexivity.
Qed.

Lemma frame_with_id_and_method_is_reply_then_event_witness :
  ∃ c',
    handle_message
      (Json (JObj [("id", JInt 1); ("result", JObj [("frameId", JStr "F1")]);
                   ("method", JStr "Page.loadEventFired")]))
      (on "Page.loadEventFired" (Callback 7) waiting_client).2 = (Ok tt, c') ∧
    futures c' !! 0%nat = Some (Result (JObj [("frameId", JStr "F1")])) ∧
    tasks c' = [(Callback 7, JObj [])].
Proof.
  eexists. split; [|split].
  - rewrite (frame_with_id_and_method_is_reply_then_event _ _ 1 "Page.loadEventFired");
      reflexivity.
  - reflexivity.
  - reflexivity.
Defined.

(** ** Navigation *)

Lemma wait_for_event_result c event predicate happenings :
  _listen_task c = Some Running →
  unused_future (next_future c) c →
  ∃ c',
    wait_for_event event predicate (map tick_of happenings) c =
      (match first_matching_event event predicate (events_of happenings) with
       | Some params => Ok params
       | None => Raise (TimeoutError EmptyString)
       end, c') ∧
    _event_handlers c'
      = <[event := default [] (_event_handlers c !! event)]> (_event_handlers c).
Proof.
  intros Hloop [Hhandlers Htasks].
  set (f := next_future c) in *.
  set (hs0 := default [] (_event_handlers c !! event)).
  set (H1 := <[event := hs0 ++ [WaitHandler f predicate]]> (_event_handlers c)).
  set (c1 := with_event_handlers H1
               (with_next_future (S f)
                  (with_futures (<[f := Pending]> (futures c)) c))).
  assert (wait_for_event_begin event predicate c = (Ok f, c1)) as Hbegin by reflexivity.
  assert (H1 !! event = Some (hs0 ++ [WaitHandler f predicate])) as Hev
    by apply lookup_insert_eq.
  assert (∀ p, WaitHandler f p ∉ hs0) as Hhs0.
  { intros p. unfold hs0. destruct (_event_handlers c !! event) as [hs|] eqn:Hh; cbn.
    - by eapply Hhandlers.
    - apply not_elem_of_nil. }
  assert (∀ name hs p, name ≠ event → H1 !! name = Some hs → WaitHandler f p ∉ hs)
    as Hother.
  { intros name hs p Hne Hh. unfold H1 in Hh. rewrite lookup_insert_ne in Hh by done.
    by eapply Hhandlers. }
  assert (wait_invariant f event predicate H1 c1 []) as Hinv.
  { split; [exact Hloop|]. split; [reflexivity|]. cbn [tasks futures c1 with_event_handlers
      with_next_future with_futures]. split; [|split].
    - apply Forall_forall. intros [h q] Hin p Hp. cbn in Hp. subst h.
      by apply Htasks in Hin.
    - left. apply lookup_insert_eq.
    - rewrite lookup_insert_eq, pending_params_unused by done. reflexivity. }
  destruct (invariant_schedule f event predicate H1 hs0 Hev Hhs0 Hother
              happenings c1 [] Hinv) as (c2 & Hrun2 & Hinv2).
  destruct (invariant_run_tasks f event predicate H1 (length (tasks c2)) c2 _ Hinv2)
    as (c3 & Hrun3 & Hinv3 & Hlen3).
  assert (tasks c3 = []) as Hdone by (apply length_zero_iff_nil; lia).
  pose proof (invariant_settled f event predicate H1 c3 _ Hinv3 Hdone) as Hfut.
  cbn [app] in Hfut.
  destruct Hinv3 as (_ & Hh3 & _).
  assert (List.filter (λ x, negb (handler_eqb x (WaitHandler f predicate)))
            (hs0 ++ [WaitHandler f predicate]) = hs0) as Hfilter.
  { rewrite List.filter_app, filter_other_handlers by done.
    cbn. rewrite Nat.eqb_refl. cbn. apply app_nil_r. }
  assert (∀ c4, _event_handlers c4 = H1 →
            (off event (Some (WaitHandler f predicate)) c4).1 = Ok tt ∧
            _event_handlers (off event (Some (WaitHandler f predicate)) c4).2
            = <[event := hs0]> (_event_handlers c)) as Hoff.
  { intros c4 Hc4. unfold off, modify. cbn [fst snd]. rewrite Hc4, Hev. cbn.
    split; [done|]. rewrite Hfilter. unfold H1. apply insert_insert_eq. }
  assert (∃ c',
    wait_for_event event predicate (map tick_of happenings) c =
      (match first_matching_event event predicate (events_of happenings) with
       | Some params => Ok params
       | None => Raise (TimeoutError EmptyString)
       end, c') ∧
    _event_handlers c' = <[event := hs0]> (_event_handlers c)) as (c' & Hres & Hh').
  { unfold wait_for_event. rewrite bind_run, Hbegin. rewrite bind_run, Hrun2.
    rewrite bind_run. unfold run_ready_tasks. rewrite Hrun3.
    unfold wait_for_event_resume, finally, wait_for. rewrite bind_run. unfold gets at 1.
    rewrite Hfut.
    destruct (first_matching_event event predicate (events_of happenings)) as [v|].
    - unfold ret. destruct (Hoff c3 Hh3) as [Hok Hh4].
      destruct (off event (Some (WaitHandler f predicate)) c3) as [r c4].
      cbn in Hok, Hh4. subst r. by exists c4.
    - rewrite bind_run. unfold cancel, future_done. rewrite bind_run. unfold gets at 1.
      rewrite Hfut. cbn [done]. unfold modify at 1. cbn [raise].
      match goal with
      | |- context [off _ _ ?c4] =>
          destruct (Hoff c4) as [Hok Hh4]; [exact Hh3|];
          destruct (off event (Some (WaitHandler f predicate)) c4) as [r c5]
      end.
      cbn in Hok, Hh4. subst r. by exists c5. }
  by exists c'.
Qed.

Lemma send_answered method params c payload :
  connected c = true →
  _listen_task c = Some Running →
  send method params [reply_frame (_id_counter c + 1) payload] c
  = (Ok payload,
     with_futures (<[next_future c := Result payload]>
                     (<[next_future c := Pending]> (futures c)))
       (with_callbacks (delete (_id_counter c + 1)
                          (<[_id_counter c + 1 := next_future c]> (_callbacks c)))
          (send_begin method params c).2)).
Proof.
  intros Hc Hloop. unfold send. rewrite bind_run, send_begin_connected by done.
  cbn [fst snd for_each]. rewrite !bind_run.
  unfold listen_loop_receive at 1. cbn [_listen_task with_sent with_callbacks
    with_next_future with_futures with_id_counter]. rewrite Hloop.
  rewrite (handle_message_reply _ _ _ (next_future c))
    by (cbn; apply lookup_insert_eq).
  unfold ret at 1. rewrite send_resume_result with (v := payload)
    by (cbn; apply lookup_insert_eq).
  reflexivity.
Qed.

(** [navigate] on a session whose [Page] domain is enabled (or gets
    enabled by the call) and whose [Page.navigate] command is answered:
    the caller gets the result of [Page.navigate] whatever happens during
    the wait that follows, whether the awaited event arrives or the wait
    runs into its timeout, and the parameters of the event are dropped.
    The event awaited is [Page.domContentEventFired] for
    ["domcontentloaded"] and [Page.loadEventFired] for every other value
    of [wait_until]; the handler of the wait is gone afterwards. *)
Theorem navigate_returns_navigation_result :
  ∀ b url wait_until a1 b1 nav happenings,
    enable_domain "Page" a1 b = (Ok tt, b1) →
    connected (cdp b1) = true →
    _listen_task (cdp b1) = Some Running →
    fresh_futures (cdp b1) →
    ∃ b',
      navigate url wait_until a1 [reply_frame (_id_counter (cdp b1) + 1) nav]
        (map tick_of happenings) b = (Ok nav, b') ∧
      _enabled_domains b' = _enabled_domains b1 ∧
      target_id b' = target_id b1 ∧
      _event_handlers (cdp b')
        = <[waited_event wait_until :=
              default [] (_event_handlers (cdp b1) !! waited_event wait_until)]>
            (_event_handlers (cdp b1)).
Proof.
  intros b url wait_until a1 b1 nav happenings Henable Hc Hloop Hfresh.
  unfold navigate. rewrite Henable.
  rewrite (send_answered _ _ (cdp b1) nav Hc Hloop).
  assert ((if String.eqb wait_until "load" then "Page.loadEventFired"
           else if String.eqb wait_until "domcontentloaded"
                then "Page.domContentEventFired"
                else "Page.loadEventFired") = waited_event wait_until) as ->.
  { unfold waited_event. destruct (String.eqb wait_until "load") eqn:Hload; [|done].
    apply String.eqb_eq in Hload. by subst. }
  match goal with
  | |- context [wait_for_event _ _ _ ?c2] =>
      destruct (wait_for_event_result c2 (waited_event wait_until) None happenings)
        as (c3 & Hwait & Hh)
  end.
  { rewrite send_begin_connected by done. exact Hloop. }
  { rewrite send_begin_connected by done.
    destruct (Hfresh (S (next_future (cdp b1)))) as [H1 H2]; [lia|].
    split; [exact H1|exact H2]. }
  rewrite Hwait. rewrite send_begin_connected in Hh by done.
  destruct (first_matching_event _ _ _);
    (eexists; split; [reflexivity|]; split; [reflexivity|]; split; [reflexivity|]);
    exact Hh.
Qed.

Lemma navigate_returns_navigation_result_witness :
  ∃ b',
    navigate "https://example.com" "networkidle" [reply_frame 1 (JObj [])]
      [reply_frame
         (_id_counter
            (cdp (enable_domain "Page" [reply_frame 1 (JObj [])] page_browser).2) + 1)
         (JObj [("frameId", JStr "F1")])]
      (map tick_of [Event "Page.domContentEventFired" None]) page_browser
    = (Ok (JObj [("frameId", JStr "F1")]), b').
Proof.
  destruct (navigate_returns_navigation_result page_browser "https://example.com"
              "networkidle" [reply_frame 1 (JObj [])]
              (enable_domain "Page" [reply_frame 1 (JObj [])] page_browser).2
              (JObj [("frameId", JStr "F1")])
              [Event "Page.domContentEventFired" None])
    as (b' & Hrun & _).
  - vm_compute. reflexivity.
  - vm_compute. reflexivity.
  - vm_compute. reflexivity.
  - assert (_event_handlers
              (cdp (enable_domain "Page" [reply_frame 1 (JObj [])] page_browser).2) = ∅)
      as Hh by (vm_compute; reflexivity).
    assert (tasks (cdp (enable_domain "Page" [reply_frame 1 (JObj [])] page_browser).2)
            = []) as Ht by (vm_compute; reflexivity).
    intros f _. split.
    + intros name hs p Hn. rewrite Hh in Hn. by rewrite lookup_empty in Hn.
    + intros p params. rewrite Ht. apply not_elem_of_nil.
  - exists b'. exact Hrun.
Defined.

(** ** [get_url] and [get_title] *)

(** What [get_url] and [get_title] return, from the result of
    [Runtime.evaluate]: the [value] of its [result] member, of whatever
    type it is; the empty string when the result has no [result] member or
    that member has no [value] (as when the evaluation threw);
    [AttributeError] when the result or its [result] member is not an
    object. *)
Theorem evaluate_returns_value_or_empty_string :
  ∀ b expression a1 b1 payload,
    enable_domain "Runtime" a1 b = (Ok tt, b1) →
    connected (cdp b1) = true →
    _listen_task (cdp b1) = Some Running →
    (evaluate expression a1 [reply_frame (_id_counter (cdp b1) + 1) payload] b).1
    = match payload with
      | JObj members =>
          match dict_get "result" members with
          | None => Ok (JStr EmptyString)
          | Some (JObj inner) => Ok (default (JStr EmptyString) (dict_get "value" inner))
          | Some _ => Raise AttributeError
          end
      | _ => Raise AttributeError
      end.
Proof.
  intros b expression a1 b1 payload Henable Hc Hloop.
  unfold evaluate. rewrite Henable.
  rewrite (send_answered _ _ (cdp b1) payload Hc Hloop).
  destruct payload as [| | | | | | |members]; try reflexivity.
  cbn [py_get]. destruct (dict_get "result" members) as [[| | | | | | |inner]|];
    try reflexivity.
Qed.

Lemma evaluate_returns_value_or_empty_string_witness :
  (get_title [reply_frame 1 (JObj [])]
     [reply_frame
        (_id_counter
           (cdp (enable_domain "Runtime" [reply_frame 1 (JObj [])] page_browser).2) + 1)
        (JObj [("result", JObj [("type", JStr "undefined")])])]
     page_browser).1
  = Ok (JStr EmptyString).
Proof.
  assert (enable_domain "Runtime" [reply_frame 1 (JObj [])] page_browser
          = (Ok tt, (enable_domain "Runtime" [reply_frame 1 (JObj [])] page_browser).2))
    as H1 by (vm_compute; reflexivity).
  assert (connected
            (cdp (enable_domain "Runtime" [reply_frame 1 (JObj [])] page_browser).2)
          = true) as H2 by (vm_compute; reflexivity).
  assert (_listen_task
            (cdp (enable_domain "Runtime" [reply_frame 1 (JObj [])] page_browser).2)
          = Some Running) as H3 by (vm_compute; reflexivity).
  exact (evaluate_returns_value_or_empty_string page_browser "document.title"
           [reply_frame 1 (JObj [])]
           (enable_domain "Runtime" [reply_frame 1 (JObj [])] page_browser).2
           (JObj [("result", JObj [("type", JStr "undefined")])]) H1 H2 H3).
Defined.

(** ** Launching a browser: the calls that succeed *)

Lemma try_connect_attaches p m m' :
  _try_connect p m = (Ok true, m') →
  ∃ t url id,
    _get_page_target p = Ok (Some t) ∧
    dict_get "webSocketDebuggerUrl" t = Some (JStr url) ∧
    dict_get "id" t = Some id ∧
    m' = {| port := port m; process := process m;
            browser := Some (new_browser (connect url None init).2 id);
            processes := processes m |}.
Proof.
  unfold _try_connect. intros H.
  destruct (_get_page_target p) as [[t|]|e0]; [|done|done].
  destruct (bool_decide (t = [])); [done|].
  cbv zeta in H.
  destruct (dict_get "webSocketDebuggerUrl" t) as [[| | | | |url| |]|] eqn:Hurl;
    cbn [default from_option id py_truthy] in H;
    try (destruct (negb _); done); try done.
  destruct (negb (negb (String.eqb url EmptyString))); [done|].
  destruct (dial p) as [e|]; [by cbn in H|].
  change (connect url None init)
    with (Ok tt, (connect url None init).2) in H.
  cbv beta iota in H. destruct (dict_get "id" t) as [id|] eqn:Hid; [|done].
  exists t, url, id. split; [done|]. split; [done|]. split; [done|]. by inversion H.
Qed.

Lemma try_connect_attached p m m' :
  _try_connect p m = (Ok true, m') → attached m' = true.
Proof.
  intros H. apply try_connect_attaches in H as (t & url & id & _ & _ & _ & ->).
  reflexivity.
Qed.

Lemma poll_attached timeout start ticks :
  ∀ m m', poll timeout start ticks m = Some (Ok true, m') → attached m' = true.
Proof.
  induction ticks as [|[now p] ticks IH]; intros m m' Hpoll; [done|].
  cbn in Hpoll. destruct (negb (Qle_bool timeout (now - start))); [|done].
  destruct (_try_connect p m) as [[[|]|e] m1] eqn:Htry.
  - inversion Hpoll; subst. by eapply try_connect_attached.
  - by eapply IH.
  - done.
Qed.

Lemma launch_attached headless use_profile timeout env m ob m' :
  launch headless use_profile timeout env m = Some (Ok ob, m') →
  ob = browser m' ∧ attached m' = true.
Proof.
  unfold launch. intros H.
  destruct (attached m) eqn:Hm; [by inversion H; subst|].
  destruct (_try_connect (first_probe env) m) as [[[|]|e1] m1] eqn:Htry; [| |done].
  { inversion H; subst. split; [done|]. by eapply try_connect_attached. }
  destruct (find_chrome_executable env) as [[|a chrome_path]|]; try done.
  destruct (popen env) as [pid|]; [|done].
  match type of H with
  | context [poll ?t ?s ?ticks ?m2] =>
      destruct (poll t s ticks m2) as [[[[|]|e3] m3]|] eqn:Hpoll; try done
  end.
  inversion H; subst. split; [done|]. by eapply poll_attached.
Qed.

(** [launch] is idempotent once it has succeeded: the session it returns
    is connected, and as long as it is, every further call, whatever its
    arguments and whatever it would meet, returns that same session and
    leaves the manager as it is: nothing is probed, spawned or
    terminated. *)
Theorem launch_again_returns_same_session :
  ∀ headless use_profile timeout env m ob m',
    launch headless use_profile timeout env m = Some (Ok ob, m') →
    (∃ b, ob = Some b ∧ connected (cdp b) = true) ∧
    ∀ headless' use_profile' timeout' env',
      launch headless' use_profile' timeout' env' m' = Some (Ok ob, m').
Proof.
  intros headless use_profile timeout env m ob m' H.
  apply launch_attached in H as [-> Hatt]. split.
  - unfold attached in Hatt. destruct (browser m') as [b|]; [|done]. by exists b.
  - intros. unfold launch. by rewrite Hatt.
Qed.

Lemma launch_again_returns_same_session_witness :
  ∃ ob m',
    launch false true 30 slow_start_env (new_manager 9222) = Some (Ok ob, m') ∧
    (∃ b, ob = Some b ∧ connected (cdp b) = true) ∧
    launch true false 1 unreachable_env m' = Some (Ok ob, m').
Proof.
  eexists _, _. split; [vm_compute; reflexivity|].
  match goal with
  | |- (∃ b, ?ob = _ ∧ _) ∧ launch _ _ _ _ ?m' = _ =>
      destruct (launch_again_returns_same_session false true 30 slow_start_env
                  (new_manager 9222) ob m') as [Hb Hagain];
        [vm_compute; reflexivity|]
  end.
  split; [exact Hb|]. apply Hagain.
Defined.

(** [launch] on a manager without a live session, when the discovery
    endpoint answers: the session is opened on the first target of type
    [page] in the list, whatever comes before or after it, with the [id]
    of that target and no domain enabled, and nothing is spawned.  Only
    that target is tried: if it has no [webSocketDebuggerUrl] the attempt
    fails, also when a later page target has one. *)
Theorem launch_attaches_to_first_page_target :
  ∀ env m before t after,
    attached m = false →
    response (first_probe env) = Ok (JArr (map JObj before ++ JObj t :: after)) →
    forallb (λ x, negb (is_page x)) before = true →
    is_page t = true →
    (∀ url id headless use_profile timeout,
       dict_get "webSocketDebuggerUrl" t = Some (JStr url) →
       url ≠ EmptyString →
       dict_get "id" t = Some id →
       dial (first_probe env) = None →
       launch headless use_profile timeout env m
       = Some (Ok (Some (new_browser (connect url None init).2 id)),
               {| port := port m; process := process m;
                  browser := Some (new_browser (connect url None init).2 id);
                  processes := processes m |})) ∧
    (dict_get "webSocketDebuggerUrl" t = None →
     _try_connect (first_probe env) m = (Ok false, m)).
Proof.
  intros env m before t after Hatt Hresp Hbefore Hpage.
  assert (_get_page_target (first_probe env) = Ok (Some t)) as Hfind.
  { unfold _get_page_target, _get_targets. rewrite Hresp.
    clear Hresp. induction before as [|x before IH]; cbn.
    - by rewrite Hpage.
    - cbn in Hbefore. apply andb_prop in Hbefore as [Hx Hrest].
      apply negb_true_iff in Hx. rewrite Hx. by apply IH. }
  assert (t ≠ []) as Hne by (intros ->; done).
  split.
  - intros url tid headless use_profile timeout Hurl Hnonempty Hid Hdial.
    unfold launch. rewrite Hatt. unfold _try_connect.
    rewrite Hfind, bool_decide_eq_false_2, Hurl by done.
    cbn [default from_option id py_truthy].
    assert (String.eqb url EmptyString = false) as ->
      by (by apply String.eqb_neq).
    cbn [negb]. rewrite Hdial, Hid. reflexivity.
  - intros Hurl. unfold _try_connect.
    rewrite Hfind, bool_decide_eq_false_2, Hurl by done. reflexivity.
Qed.

Lemma launch_attaches_to_first_page_target_witness :
  ∃ b m',
    launch false true 30
      {| first_probe := three_targets;
         find_chrome_executable := None; find_default_profile_dir := None;
         is_profile_locked := false; get_temp_profile_dir := "/tmp/p";
         popen := Raise (OSError "no such file"); start_time := 0%Q; polls := [] |}
      (new_manager 9222) = Some (Ok (Some b), m') ∧
    target_id b = JStr "T1" ∧
    processes m' = [].
Proof.
  eexists _, _. split; [|split].
  - apply (launch_attaches_to_first_page_target
             {| first_probe := three_targets;
                find_chrome_executable := None; find_default_profile_dir := None;
                is_profile_locked := false; get_temp_profile_dir := "/tmp/p";
                popen := Raise (OSError "no such file"); start_time := 0%Q; polls := [] |}
             (new_manager 9222)
             [[("id", JStr "W1"); ("type", JStr "service_worker");
               ("webSocketDebuggerUrl", JStr "ws://localhost:9222/devtools/page/W1")]]
             [("id", JStr "T1"); ("type", JStr "page"); ("url", JStr "about:blank");
              ("webSocketDebuggerUrl", JStr "ws://localhost:9222/devtools/page/T1")]
             [JObj [("id", JStr "T2"); ("type", JStr "page");
                    ("webSocketDebuggerUrl",
                     JStr "ws://localhost:9222/devtools/page/T2")]]
             eq_refl eq_refl eq_refl eq_refl);
      [reflexivity|discriminate|reflexivity|reflexivity].
  - reflexivity.
  - reflexivity.
Defined.

Lemma poll_attaches timeout start ticks :
  ∀ m,
    attaches timeout start ticks →
    ∃ m',
      poll timeout start ticks m = Some (Ok true, m') ∧
      process m' = process m ∧ processes m' = processes m ∧ attached m' = true.
Proof.
  induction ticks as [|[now p] ticks IH]; intros m Hatt; [done|].
  cbn in *. destruct (negb (Qle_bool timeout (now - start))); [|done].
  destruct (try_connect_process p m) as (Hp & Hps & Hsame).
  destruct Hatt as [Hok | [Hfail Hrest]].
  - specialize (Hok m). destruct (_try_connect p m) as [r m1] eqn:Htry.
    cbn in *. subst r. exists m1. repeat split; try done.
    by eapply try_connect_attached.
  - specialize (Hfail m). destruct (_try_connect p m) as [r m1] eqn:Htry.
    cbn in *. subst r. rewrite Hsame by done. by apply IH.
Qed.

(** A default profile that is locked does not make [launch] fail.  When no
    browser answers at first, Chrome is found and starts, and an attempt of
    the polling loop attaches before the timeout, the call returns the
    session; the process it spawned was given the temporary profile
    directory as its last argument, is not terminated, and stays with the
    manager as [process]. *)
Theorem launch_with_locked_profile_uses_temporary_profile :
  ∀ headless timeout env m chrome_path profile_dir pid,
    attached m = false →
    (∀ m0, (_try_connect (first_probe env) m0).1 = Ok false) →
    find_chrome_executable env = Some chrome_path →
    chrome_path ≠ EmptyString →
    find_default_profile_dir env = Some profile_dir →
    is_profile_locked env = true →
    popen env = Ok pid →
    attaches timeout (start_time env) (polls env) →
    ∃ b m' args,
      launch headless true timeout env m = Some (Ok (Some b), m') ∧
      connected (cdp b) = true ∧
      browser m' = Some b ∧
      process m' = Some pid ∧
      processes m' = processes m ++ [Spawned pid args] ∧
      head args = Some chrome_path ∧
      last args = Some ("--user-data-dir=" +:+ get_temp_profile_dir env).
Proof.
  intros headless timeout env m chrome_path profile_dir pid
    Hatt Hfirst Hchrome Hne Hprofile Hlocked Hpopen Hpolls.
  unfold launch. rewrite Hatt.
  destruct (try_connect_process (first_probe env) m) as (_ & _ & Hsame).
  specialize (Hfirst m).
  destruct (_try_connect (first_probe env) m) as [ok m1]. cbn in Hfirst, Hsame.
  subst ok. rewrite Hsame by done. rewrite Hchrome.
  destruct chrome_path as [|a chrome_path]; [done|]. rewrite Hpopen.
  match goal with
  | |- context [poll ?t ?s ?ticks ?m2] =>
      destruct (poll_attaches t s ticks m2 Hpolls) as (m3 & Hpoll & Hp & Hps & Hatt3);
      rewrite Hpoll
  end.
  cbn in Hp, Hps. unfold attached in Hatt3.
  destruct (browser m3) as [b|] eqn:Hb; [|done].
  eexists b, m3, _. split; [reflexivity|]. split; [done|]. split; [done|].
  split; [done|]. split; [exact Hps|]. split; [reflexivity|].
  unfold launch_args. rewrite Hprofile, Hlocked.
  by destruct headless, profile_dir.
Qed.

Lemma launch_with_locked_profile_uses_temporary_profile_witness :
  ∃ b m' args,
    launch false true 30 slow_start_env (new_manager 9222) = Some (Ok (Some b), m') ∧
    target_id b = JStr "T1" ∧
    processes m' = [Spawned 4242 args] ∧
    last args = Some "--user-data-dir=/tmp/mcp-browsy-profile".
Proof.
  destruct (launch_with_locked_profile_uses_temporary_profile false 30 slow_start_env
              (new_manager 9222) "/usr/bin/chromium" "/home/user/.config/chromium"
              4242%nat)
    as (b & m' & args & Hrun & _ & _ & _ & Hps & _ & Hlast);
    try reflexivity.
  - discriminate.
  - cbn. right. split; [reflexivity|]. left. reflexivity.
  - exists b, m', args. split; [exact Hrun|]. split; [|split; [exact Hps|exact Hlast]].
    vm_compute in Hrun. by inversion Hrun.
Defined.

(** ** Switching tabs *)

Lemma find_target_none tab_id targets :
  Forall (λ t, ∃ v, dict_get "id" t = Some v ∧ is_str tab_id v = false) targets →
  find_target tab_id (JArr (map JObj targets)) = Ok None.
Proof.
  induction 1 as [|t targets (v & Hid & Hv) _ IH]; [done|].
  cbn in *. by rewrite Hid, Hv.
Qed.

(** [switch_tab] returns [False] without touching the session: whenever
    the call returns [False] the manager and its [Browser] are as they were
    (the connection is not closed).  It does so when no target carries the
    id, which includes a discovery endpoint that does not answer. *)
Theorem switch_tab_false_leaves_session :
  (∀ tab_id p arrivals m s,
     switch_tab tab_id p arrivals m = Some s →
     outcome s = Ok false →
     manager s = m ∧ previous s = browser m) ∧
  (∀ tab_id p arrivals m targets,
     _get_targets p = JArr (map JObj targets) →
     Forall (λ t, ∃ v, dict_get "id" t = Some v ∧ is_str tab_id v = false)
            targets →
     switch_tab tab_id p arrivals m
     = Some {| outcome := Ok false; manager := m; previous := browser m |}) ∧
  (∀ tab_id e d arrivals m,
     switch_tab tab_id {| response := Raise e; dial := d |} arrivals m
     = Some {| outcome := Ok false; manager := m; previous := browser m |}).
Proof.
  split; [|split].
  - intros tab_id p arrivals m s Hrun Hout. unfold switch_tab in Hrun.
    destruct (find_target tab_id (_get_targets p)) as [[target|]|e].
    + destruct (bool_decide (target = [])
                || negb (bool_decide (is_Some (dict_get "webSocketDebuggerUrl" target)))).
      { inversion Hrun; subst. done. }
      destruct (dict_get "webSocketDebuggerUrl" target) as [[| | | | |url| |]|];
        try done.
      destruct (connect url (dial p) init) as [[u|e] c].
      * destruct (send "Page.bringToFront" None arrivals c) as [[v|e] c'];
          inversion Hrun; subst; done.
      * inversion Hrun; subst. done.
    + inversion Hrun; subst. done.
    + inversion Hrun; subst. done.
  - intros tab_id p arrivals m targets Htargets Hall. unfold switch_tab.
    by rewrite Htargets, find_target_none.
  - intros. reflexivity.
Qed.

Lemma switch_tab_false_leaves_session_witness :
  switch_tab "T9" three_targets []
    (with_browser (Some page_browser) (new_manager 9222))
  = Some {| outcome := Ok false;
            manager := with_browser (Some page_browser) (new_manager 9222);
            previous := Some page_browser |}.
Proof.
  apply (proj1 (proj2 switch_tab_false_leaves_session) "T9" three_targets []
           (with_browser (Some page_browser) (new_manager 9222))
           [[("id", JStr "W1"); ("type", JStr "service_worker");
             ("webSocketDebuggerUrl", JStr "ws://localhost:9222/devtools/page/W1")];
            [("id", JStr "T1"); ("type", JStr "page"); ("url", JStr "about:blank");
             ("webSocketDebuggerUrl", JStr "ws://localhost:9222/devtools/page/T1")];
            [("id", JStr "T2"); ("type", JStr "page");
             ("webSocketDebuggerUrl", JStr "ws://localhost:9222/devtools/page/T2")]]).
  - reflexivity.
  - repeat constructor; eexists; (split; [reflexivity|reflexivity]).
Defined.

(** [switch_tab] to a target that has a debugger endpoint closes the
    connection of the current session before it dials the new one: the
    [Browser] a caller still holds is disconnected, with no command left in
    [_callbacks] and those that were pending cancelled.  If the dial fails
    its exception is raised and the manager is left with that closed
    session.  If it succeeds the manager gets a new session on the tab,
    with no domain enabled, whose connection has carried one frame,
    [Page.bringToFront] with id 1; the call returns [True] if that command
    is answered and raises what [send] raises otherwise.  The process of
    the manager is not touched. *)
Theorem switch_tab_closes_previous_session :
  ∀ tab_id p arrivals m target url,
    find_target tab_id (_get_targets p) = Ok (Some target) →
    dict_get "webSocketDebuggerUrl" target = Some (JStr url) →
    ∃ s,
      switch_tab tab_id p arrivals m = Some s ∧
      process (manager s) = process m ∧
      processes (manager s) = processes m ∧
      match browser m with
      | None => previous s = None
      | Some b =>
          ∃ b0,
            previous s = Some b0 ∧
            connected (cdp b0) = false ∧
            _callbacks (cdp b0) = ∅ ∧
            (∀ k g, _callbacks (cdp b) !! k = Some g →
                    futures (cdp b) !! g = Some Pending →
                    futures (cdp b0) !! g = Some Cancelled) ∧
            _enabled_domains b0 = _enabled_domains b
      end ∧
      match dial p with
      | Some e =>
          outcome s = Raise e ∧ browser (manager s) = previous s ∧
          attached (manager s) = false
      | None =>
          ∃ b',
            browser (manager s) = Some b' ∧
            target_id b' = JStr tab_id ∧
            _enabled_domains b' = ∅ ∧
            sent (cdp b')
              = [JObj [("id", JInt 1); ("method", JStr "Page.bringToFront");
                       ("params", JObj [])]] ∧
            outcome s
              = match (send "Page.bringToFront" None arrivals
                         (connect url None init).2).1 with
                | Ok _ => Ok true
                | Raise e => Raise e
                end
      end.
Proof.
  intros tab_id p arrivals m target url Hfind Hurl.
  unfold switch_tab. rewrite Hfind.
  assert (target ≠ []) as Hne by (intros ->; done).
  rewrite bool_decide_eq_false_2 by done. rewrite Hurl.
  rewrite bool_decide_eq_true_2 by eauto. cbn [negb orb].
  assert (match browser m with
          | None => (None : option Browser) = None
          | Some b =>
              ∃ b0,
                Some (browser_close b).2 = Some b0 ∧
                connected (cdp b0) = false ∧
                _callbacks (cdp b0) = ∅ ∧
                (∀ k g, _callbacks (cdp b) !! k = Some g →
                        futures (cdp b) !! g = Some Pending →
                        futures (cdp b0) !! g = Some Cancelled) ∧
                _enabled_domains b0 = _enabled_domains b
          end) as Hold.
  { destruct (browser m) as [b|]; [|done].
    destruct (close_spec (cdp b)) as (F & Hclose & Hpending & _).
    unfold browser_close. rewrite Hclose. eexists. split; [reflexivity|].
    cbn. repeat split; done. }
  destruct (dial p) as [e|] eqn:Hdial.
  - assert (connect url (Some e) init = (Raise e, with_ws_url (Some url) init)) as ->
      by reflexivity.
    eexists. split; [reflexivity|]. cbn [manager previous outcome with_browser
      process processes browser].
    split; [done|]. split; [done|]. split.
    + destruct (browser m) as [b|]; exact Hold.
    + split; [done|]. split; [done|]. unfold attached. cbn [browser].
      destruct (browser m) as [b|]; [|done].
      destruct Hold as (b0 & Hb0 & Hcon & _). by inversion Hb0; subst.
  - pose proof (send_connected_sent "Page.bringToFront" None arrivals
                  (connect url None init).2 eq_refl) as Hsent.
    destruct (connect url None init) as [[u|e0] c] eqn:Hconnect; [|done].
    cbn [snd] in Hsent. cbn [snd].
    destruct (send "Page.bringToFront" None arrivals c) as [r c'] eqn:Hsend.
    eexists. split; [reflexivity|]. cbn [manager previous outcome with_browser
      process processes browser].
    split; [done|]. split; [done|]. split.
    + destruct (browser m) as [b|]; exact Hold.
    + eexists. split; [reflexivity|]. cbn [target_id _enabled_domains cdp new_browser].
      split; [done|]. split; [done|]. split; [|done].
      cbn [snd] in Hsent. rewrite Hsent.
      assert (c = (connect url None init).2) as -> by (by rewrite Hconnect).
      reflexivity.
Qed.

Lemma switch_tab_closes_previous_session_witness :
  ∃ s b0 b',
    switch_tab "T2" three_targets [reply_frame 1 (JObj [])]
      (with_browser (Some (new_browser waiting_client (JStr "T1"))) (new_manager 9222))
    = Some s ∧
    outcome s = Ok true ∧
    previous s = Some b0 ∧
    futures (cdp b0) !! 0%nat = Some Cancelled ∧
    browser (manager s) = Some b' ∧
    target_id b' = JStr "T2".
Proof.
  destruct (switch_tab_closes_previous_session "T2" three_targets
              [reply_frame 1 (JObj [])]
              (with_browser (Some (new_browser waiting_client (JStr "T1")))
                 (new_manager 9222))
              [("id", JStr "T2"); ("type", JStr "page");
               ("webSocketDebuggerUrl", JStr "ws://localhost:9222/devtools/page/T2")]
              "ws://localhost:9222/devtools/page/T2" eq_refl eq_refl)
    as (s & Hrun & _ & _ & Hold & Hnew).
  cbn [browser with_browser] in Hold. destruct Hold as (b0 & Hprev & _ & _ & Hp & _).
  cbn [dial three_targets] in Hnew. destruct Hnew as (b' & Hb' & Htarget & _ & _ & Hout).
  exists s, b0, b'. split; [exact Hrun|]. split; [exact Hout|]. split; [exact Hprev|].
  split; [|split; [exact Hb'|exact Htarget]].
  apply (Hp 1 0%nat); reflexivity.
Defined.

(** ** Shutting down *)

Lemma launch_processes headless use_profile timeout env m r m' :
  launch headless use_profile timeout env m = Some (r, m') →
  (processes m' = processes m ∧ process m' = process m) ∨
  ∃ pid args,
    (processes m' = processes m ++ [Spawned pid args] ∧ process m' = Some pid) ∨
    (processes m' = processes m ++ [Spawned pid args; Terminated pid] ∧
     process m' = None).
Proof.
  unfold launch. intros H.
  destruct (attached m); [inversion H; subst; by left|].
  destruct (try_connect_process (first_probe env) m) as (Hp & Hps & _).
  destruct (_try_connect (first_probe env) m) as [[[|]|e1] m1];
    [inversion H; subst; by left| |inversion H; subst; by left].
  cbn in Hp, Hps.
  destruct (find_chrome_executable env) as [[|a chrome_path]|];
    try (inversion H; subst; by left).
  destruct (popen env) as [pid|e0]; [|inversion H; subst; by left].
  match type of H with
  | context [poll ?t ?s ?ticks ?m2] =>
      destruct (poll t s ticks m2) as [[[[|]|e3] m3]|] eqn:Hpoll; try done;
      apply poll_process in Hpoll as [Hp3 Hps3]
  end.
  - inversion H; subst. right. eexists pid, _. left.
    cbn in Hp3, Hps3. rewrite Hps3, Hps. done.
  - cbn in Hp3, Hps3. rewrite Hp3 in H. inversion H; subst.
    right. eexists pid, _. right. cbn. rewrite Hps3, Hps, <- app_assoc. done.
  - inversion H; subst. right. eexists pid, _. left.
    cbn in Hp3, Hps3. rewrite Hps3, Hps. done.
Qed.

(** [BrowserManager.close] leaves no session and no process: [browser]
    and [process] are [None], the [Browser] that was released is
    disconnected, [terminate()] has been called on the process the manager
    had, and [kill()] on it exactly when it did not exit within the wait.
    A second [close] does nothing.  And whatever a [launch] on a manager
    without a process did, spawn or not, succeed or fail, after a [close]
    every process spawned has had its [terminate()]. *)
Theorem manager_close_leaves_nothing_running :
  (∀ wait m,
     browser (after (manager_close wait m)) = None ∧
     process (after (manager_close wait m)) = None ∧
     processes (after (manager_close wait m))
       = processes m ++ match process m with
                        | Some pid => [Terminated pid]
                        | None => []
                        end ∧
     killed (manager_close wait m)
       = match wait with
         | Exited => None
         | TimeoutExpired => process m
         end ∧
     (∀ b, browser m = Some b →
        ∃ b0, released (manager_close wait m) = Some b0 ∧
              connected (cdp b0) = false ∧ _callbacks (cdp b0) = ∅) ∧
     ∀ wait',
       manager_close wait' (after (manager_close wait m))
       = {| after := after (manager_close wait m); released := None; killed := None |}) ∧
  (∀ headless use_profile timeout env m r m' wait,
     process m = None →
     running (processes m) = [] →
     launch headless use_profile timeout env m = Some (r, m') →
     running (processes (after (manager_close wait m'))) = []).
Proof.
  split.
  - intros wait m. unfold manager_close. cbn [process with_browser].
    destruct (process m) as [pid|] eqn:Hp; cbn [after released killed browser process
      processes with_browser port].
    + repeat split; try done; try (by destruct wait).
      intros b Hb. rewrite Hb.
      destruct (close_spec (cdp b)) as (F & Hclose & _).
      unfold browser_close. rewrite Hclose. eexists. split; [reflexivity|]. done.
    + rewrite app_nil_r. repeat split; try done; try (by destruct wait);
        try (intros wait'; cbn; by rewrite Hp).
      intros b Hb. rewrite Hb.
      destruct (close_spec (cdp b)) as (F & Hclose & _).
      unfold browser_close. rewrite Hclose. eexists. split; [reflexivity|]. done.
  - intros headless use_profile timeout env m r m' wait Hp Hrun Hlaunch.
    apply launch_processes in Hlaunch
      as [[Hps Hp'] | (pid & args & [[Hps Hp'] | [Hps Hp']])];
      unfold manager_close; cbn [process with_browser]; rewrite Hp';
      cbn [after processes with_browser].
    + rewrite Hp. cbn [after processes with_browser]. by rewrite Hps.
    + rewrite Hps, <- app_assoc, running_app, Hrun. cbn. by rewrite Nat.eqb_refl.
    + rewrite Hps, running_app, Hrun. cbn. by rewrite Nat.eqb_refl.
Qed.

Lemma manager_close_leaves_nothing_running_witness :
  ∃ r m',
    launch false true 30 slow_start_env (new_manager 9222) = Some (r, m') ∧
    process m' = Some 4242%nat ∧
    running (processes (after (manager_close TimeoutExpired m'))) = [] ∧
    killed (manager_close TimeoutExpired m') = Some 4242%nat.
Proof.
  destruct (launch false true 30 slow_start_env (new_manager 9222)) as [[r m']|] eqn:Hl;
    [|vm_compute in Hl; discriminate].
  exists r, m'. split; [reflexivity|].
  pose proof (proj2 manager_close_leaves_nothing_running false true 30%Q slow_start_env
                (new_manager 9222) r m' TimeoutExpired eq_refl eq_refl Hl) as Hrun.
  split; [|split; [exact Hrun|]].
  - vm_compute in Hl. by inversion Hl.
  - vm_compute in Hl. by inversion Hl.
Defined.

Lemma elem_of_filter_other (old pid : nat) (pids : list nat) :
  old ≠ pid → old ∈ pids → old ∈ List.filter (λ x, negb (Nat.eqb x pid)) pids.
Proof.
  intros Hne Hin. apply list_elem_of_In, filter_In. split.
  - by apply list_elem_of_In.
  - apply negb_true_iff. by apply Nat.eqb_neq.
Qed.

(** [launch] assigns [process] without looking at what it holds.  On a
    manager that still has the process of an earlier launch but no live
    session, a call that spawns again replaces it: [terminate()] is never
    called on the earlier process, neither by this call, whatever its
    outcome, nor by a [close] that follows. *)
Theorem launch_spawning_again_forgets_previous_process :
  ∀ headless use_profile timeout env m old chrome_path pid r m' wait,
    attached m = false →
    process m = Some old →
    old ∈ running (processes m) →
    (∀ m0, (_try_connect (first_probe env) m0).1 = Ok false) →
    find_chrome_executable env = Some chrome_path →
    chrome_path ≠ EmptyString →
    popen env = Ok pid →
    pid ≠ old →
    launch headless use_profile timeout env m = Some (r, m') →
    process m' ≠ Some old ∧
    old ∈ running (processes m') ∧
    old ∈ running (processes (after (manager_close wait m'))).
Proof.
  intros headless use_profile timeout env m old chrome_path pid r m' wait
    Hatt Hp Hold Hfirst Hchrome Hne Hpopen Hpid Hlaunch.
  unfold launch in Hlaunch. rewrite Hatt in Hlaunch.
  destruct (try_connect_process (first_probe env) m) as (_ & _ & Hsame).
  specialize (Hfirst m).
  destruct (_try_connect (first_probe env) m) as [ok m1]. cbn in Hfirst, Hsame.
  subst ok. rewrite Hsame in Hlaunch by done. rewrite Hchrome in Hlaunch.
  destruct chrome_path as [|a chrome_path]; [done|]. rewrite Hpopen in Hlaunch.
  assert (old ∈ running (processes m ++ [Spawned pid
            (launch_args (String a chrome_path) headless use_profile env m)])) as Hin.
  { rewrite running_app. cbn. apply elem_of_app. by left. }
  assert (∀ m3,
            process m3 = Some pid →
            processes m3
            = processes m ++ [Spawned pid
                (launch_args (String a chrome_path) headless use_profile env m)] →
            process m3 ≠ Some old ∧
            old ∈ running (processes m3) ∧
            old ∈ running (processes (after (manager_close wait m3)))) as Hkept.
  { intros m3 Hp3 Hps3. rewrite Hp3, Hps3. split; [congruence|].
    split; [exact Hin|].
    unfold manager_close. cbn [process with_browser]. rewrite Hp3.
    cbn [after processes with_browser]. rewrite Hps3, running_app. cbn.
    apply elem_of_filter_other; [done|exact Hin]. }
  match type of Hlaunch with
  | context [poll ?t ?s ?ticks ?m2] =>
      destruct (poll t s ticks m2) as [[[[|]|e3] m3]|] eqn:Hpoll; try done;
      apply poll_process in Hpoll as [Hp3 Hps3]
  end; cbn in Hp3, Hps3.
  - inversion Hlaunch; subst. exact (Hkept _ Hp3 Hps3).
  - rewrite Hp3 in Hlaunch. inversion Hlaunch; subst.
    cbn [process processes]. rewrite Hps3.
    assert (old ∈ running ((processes m ++ [Spawned pid
              (launch_args (String a chrome_path) headless use_profile env m)])
              ++ [Terminated pid])) as Hin2.
    { rewrite <- app_assoc, running_app. cbn.
      apply elem_of_filter_other; [done|]. apply elem_of_app. by left. }
    split; [done|]. split; [exact Hin2|].
    unfold manager_close. cbn [process with_browser after processes]. exact Hin2.
  - inversion Hlaunch; subst. exact (Hkept _ Hp3 Hps3).
Qed.

Lemma launch_spawning_again_forgets_previous_process_witness :
  ∃ r m',
    launch false true 1 unreachable_env
      {| port := 9222; process := Some 7%nat; browser := None;
         processes := [Spawned 7 ["/usr/bin/chromium"]] |} = Some (r, m') ∧
    process m' ≠ Some 7%nat ∧
    7%nat ∈ running (processes (after (manager_close Exited m'))).
Proof.
  eexists _, _. split; [vm_compute; reflexivity|].
  match goal with
  | |- process ?m' ≠ _ ∧ _ =>
      destruct (launch_spawning_again_forgets_previous_process false true 1
                  unreachable_env
                  {| port := 9222; process := Some 7%nat; browser := None;
                     processes := [Spawned 7 ["/usr/bin/chromium"]] |}
                  7%nat "/usr/bin/chromium" 4242%nat
                  (Raise (BrowserError "Failed to connect to Chrome")) m' Exited)
        as (H1 & _ & H3)
  end; try reflexivity; try discriminate.
  - cbn. set_solver.
  - split; [exact H1|exact H3].
Defined.
